(** * YuchenUI resource embedder: [cmake/scripts/generate_resources.py]

    A shallow embedding of the build-time script that walks a directory of
    assets and emits a C++ header, a C++ source file and a JSON index, and
    the properties of its specification checked against it.

    Python values are modelled as follows.
    - [str] is a list of Unicode code points ([N]); ASCII classes are written
      out, the classes of code points above U+007F are read from a Unicode
      character database taken as a value of type [Unicode.db].
    - [bytes] is [list byte].
    - [float] is an IEEE-754 binary64 value of [SpecFloat.spec_float].
    - a [dict] is an association list in insertion order.
    - exceptions are the [Raise] results of the [result] type.
    - the file system read by the script is a tree of [node]s; the files it
      writes are kept in a separate store, [world]. *)

From Stdlib Require Import Strings.Ascii Strings.String Strings.Byte.
From Stdlib Require Import List NArith ZArith PeanoNat Lia Bool.
From Stdlib Require DecimalNat DecimalString.
From Stdlib Require Import Floats.SpecFloat.
Import ListNotations.

Set Implicit Arguments.
Set Warnings "-register-all".
Local Open Scope N_scope.

(* ================================================================== *)
(** ** Strings of code points *)

Module Str.

Definition char := N.
Definition str := list char.

(** The code point of an ASCII character, and the [str] of an ASCII literal. *)
Definition ch (a : ascii) : char := N_of_ascii a.
Definition lit (s : string) : str := map N_of_ascii (list_ascii_of_string s).

Definition eqb (s t : str) : bool :=
  if list_eq_dec N.eq_dec s t then true else false.

(** [sep.join(parts)]. *)
Fixpoint join (sep : str) (parts : list str) : str :=
  match parts with
  | [] => []
  | [p] => p
  | p :: ps => p ++ sep ++ join sep ps
  end.

(** [s.replace(old, new)] for one-character [old] and [new]. *)
Definition replace (old new : char) (s : str) : str :=
  map (fun c => if N.eqb c old then new else c) s.

(** [s.startswith(c)] for a one-character prefix. *)
Definition startswith (c : char) (s : str) : bool :=
  match s with
  | [] => false
  | x :: _ => N.eqb x c
  end.

(** [s.rfind(c)]: the index of the last occurrence of [c], if any. *)
Fixpoint rfind (c : char) (s : str) : option nat :=
  match s with
  | [] => None
  | x :: t =>
      match rfind c t with
      | Some i => Some (S i)
      | None => if N.eqb x c then Some O else None
      end
  end.

(** Splitting at every character satisfying [is_sep]; the pieces may be
    empty, as with [str.split]. *)
Fixpoint split (is_sep : char -> bool) (s : str) : list str :=
  match s with
  | [] => [[]]
  | c :: t =>
      if is_sep c then [] :: split is_sep t
      else match split is_sep t with
           | [] => [[c]]
           | p :: ps => (c :: p) :: ps
           end
  end.

(** [str(n)] for a non-negative integer. *)
Definition of_nat (n : nat) : str :=
  lit (DecimalString.NilEmpty.string_of_uint (Nat.to_uint n)).

(** Reading back a decimal numeral: the inverse of [of_nat]. *)
Definition to_nat (s : str) : option nat :=
  option_map Nat.of_uint
    (DecimalString.NilEmpty.uint_of_string (string_of_list_ascii (map ascii_of_N s))).

(** [t in s] for strings: [t] occurs as a contiguous slice of [s]. *)
Definition infix (t s : str) : Prop :=
  exists pre post, s = pre ++ t ++ post.

End Str.
Import Str.

(* ================================================================== *)
(** ** The Unicode character database *)

Module Unicode.

(** The properties of the code points above U+007F that the script reads
    through [str.isalpha], [str.isalnum], the regular-expression class [\d]
    and [float()].  CPython keeps them in a generated table that is no part
    of the script; it is a parameter of the model.  [decimal c] is the digit
    value of a character of category Nd. *)
Record db := {
  alpha : char -> bool;
  decimal : char -> option N;
  digit : char -> bool;
  numeric : char -> bool
}.

Definition is_ascii (c : char) : bool := c <? 128.
Definition ascii_upper (c : char) : bool := (65 <=? c) && (c <=? 90).
Definition ascii_lower (c : char) : bool := (97 <=? c) && (c <=? 122).
Definition ascii_letter (c : char) : bool := ascii_upper c || ascii_lower c.
Definition ascii_digit (c : char) : bool := (48 <=? c) && (c <=? 57).

(** [c.isalpha()]. *)
Definition isalpha (u : db) (c : char) : bool :=
  if is_ascii c then ascii_letter c else alpha u c.

(** The digit value [Py_UNICODE_TODECIMAL]; [\d] matches when it is defined. *)
Definition todecimal (u : db) (c : char) : option N :=
  if is_ascii c then (if ascii_digit c then Some (c - 48) else None)
  else decimal u c.

Definition isdecimal (u : db) (c : char) : bool :=
  match todecimal u c with Some _ => true | None => false end.

(** [c.isalnum()]: alphabetic, decimal, digit or numeric. *)
Definition isalnum (u : db) (c : char) : bool :=
  isalpha u c || isdecimal u c
  || (if is_ascii c then false else digit u c || numeric u c).

(** An excerpt of the database: the Latin-1 Supplement block, U+0080 to
    U+00FF.  Code points above the block are outside the excerpt and carry
    no property in it. *)
Definition latin1_alpha (c : char) : bool :=
  (c =? 170) || (c =? 181) || (c =? 186)
  || ((192 <=? c) && (c <=? 214))
  || ((216 <=? c) && (c <=? 246))
  || ((248 <=? c) && (c <=? 255)).
Definition latin1_digit (c : char) : bool :=
  (c =? 178) || (c =? 179) || (c =? 185).
Definition latin1_numeric (c : char) : bool :=
  latin1_digit c || ((188 <=? c) && (c <=? 190)).

Definition latin1 : db := {|
  alpha := latin1_alpha;
  decimal := fun _ => None;
  digit := latin1_digit;
  numeric := latin1_numeric
|}.

End Unicode.

(* ================================================================== *)
(** ** Exceptions *)

Inductive exn :=
| IndexError            (* indexing an empty string *)
| UnicodeEncodeError    (* a lone surrogate met by the strict UTF-8 codec *)
| ValueError            (* [relative_to] on a path outside the base *)
| OSError               (* a file that cannot be opened for reading *)
| LoopBudget.           (* the budget given to the while loop ran out; see
                           [dedup] *)

Inductive result (A : Type) :=
| Ok (a : A)
| Raise (e : exn).
Arguments Ok {A} a.
Arguments Raise {A} e.

Definition bind {A B : Type} (r : result A) (k : A -> result B) : result B :=
  match r with
  | Ok a => k a
  | Raise e => Raise e
  end.

Notation "x <- r ;; k" := (bind r (fun x => k))
  (at level 61, r at next level, right associativity).

(* ================================================================== *)
(** ** [str.encode('utf-8')] *)

Module Utf8.

Definition byte_of_N (n : N) : byte :=
  match Byte.of_N (n mod 256) with
  | Some b => b
  | None => x00
  end.

Definition is_surrogate (c : char) : bool := (55296 <=? c) && (c <=? 57343).

(** The strict codec: lone surrogates are refused. *)
Definition encode_char (c : char) : option (list byte) :=
  if c <? 128 then Some [byte_of_N c]
  else if c <? 2048 then
    Some [byte_of_N (192 + c / 64); byte_of_N (128 + c mod 64)]
  else if c <? 65536 then
    if is_surrogate c then None
    else Some [byte_of_N (224 + c / 4096);
               byte_of_N (128 + (c / 64) mod 64);
               byte_of_N (128 + c mod 64)]
  else
    Some [byte_of_N (240 + c / 262144);
          byte_of_N (128 + (c / 4096) mod 64);
          byte_of_N (128 + (c / 64) mod 64);
          byte_of_N (128 + c mod 64)].

Fixpoint encode (s : str) : result (list byte) :=
  match s with
  | [] => Ok []
  | c :: t =>
      match encode_char c with
      | None => Raise UnicodeEncodeError
      | Some bs => rest <- encode t ;; Ok (bs ++ rest)
      end
  end.

End Utf8.

(* ================================================================== *)
(** ** Hexadecimal rendering *)

Module Hex.

(** The lower-case hexadecimal digit of a value below 16. *)
Definition digit (n : N) : char :=
  if n <? 10 then 48 + n else 87 + n.

(** [f'{b:02x}'] for a byte. *)
Definition of_byte (b : byte) : str :=
  let n := Byte.to_N b in [digit (n / 16); digit (n mod 16)].

Definition is_hexdigit (c : char) : bool :=
  ((48 <=? c) && (c <=? 57)) || ((97 <=? c) && (c <=? 102)).

(** The value of a lower-case hexadecimal digit. *)
Definition value (c : char) : option N :=
  if (48 <=? c) && (c <=? 57) then Some (c - 48)
  else if (97 <=? c) && (c <=? 102) then Some (c - 87)
  else None.

(** Reading back a byte-array literal: [0xhh] items separated by a comma and
    a space. *)
Fixpoint decode (s : str) : option (list byte) :=
  match s with
  | [] => Some []
  | 48 :: 120 :: h :: l :: rest =>
      match value h, value l with
      | Some a, Some b =>
          match Byte.of_N (16 * a + b) with
          | Some x =>
              match rest with
              | [] => Some [x]
              | 44 :: 32 :: rest' => option_map (cons x) (decode rest')
              | _ => None
              end
          | None => None
          end
      | _, _ => None
      end
  | _ => None
  end.

End Hex.

(* ================================================================== *)
(** ** [hashlib.md5]

    The script calls the MD5 of the Python standard library; it is written
    here after RFC 1321, on 32-bit words kept as [N] with the wrap-around
    explicit. *)

Module MD5.

Definition w32 : N := 4294967296.
Definition add32 (a b : N) : N := (a + b) mod w32.
Definition not32 (a : N) : N := N.lxor (a mod w32) (w32 - 1).
Definition rotl32 (x : N) (s : N) : N :=
  N.lor (N.shiftl x s mod w32) (N.shiftr (x mod w32) (32 - s)).

Definition K : list N :=
  [ 0xd76aa478; 0xe8c7b756; 0x242070db; 0xc1bdceee;
    0xf57c0faf; 0x4787c62a; 0xa8304613; 0xfd469501;
    0x698098d8; 0x8b44f7af; 0xffff5bb1; 0x895cd7be;
    0x6b901122; 0xfd987193; 0xa679438e; 0x49b40821;
    0xf61e2562; 0xc040b340; 0x265e5a51; 0xe9b6c7aa;
    0xd62f105d; 0x02441453; 0xd8a1e681; 0xe7d3fbc8;
    0x21e1cde6; 0xc33707d6; 0xf4d50d87; 0x455a14ed;
    0xa9e3e905; 0xfcefa3f8; 0x676f02d9; 0x8d2a4c8a;
    0xfffa3942; 0x8771f681; 0x6d9d6122; 0xfde5380c;
    0xa4beea44; 0x4bdecfa9; 0xf6bb4b60; 0xbebfbc70;
    0x289b7ec6; 0xeaa127fa; 0xd4ef3085; 0x04881d05;
    0xd9d4d039; 0xe6db99e5; 0x1fa27cf8; 0xc4ac5665;
    0xf4292244; 0x432aff97; 0xab9423a7; 0xfc93a039;
    0x655b59c3; 0x8f0ccc92; 0xffeff47d; 0x85845dd1;
    0x6fa87e4f; 0xfe2ce6e0; 0xa3014314; 0x4e0811a1;
    0xf7537e82; 0xbd3af235; 0x2ad7d2bb; 0xeb86d391 ].

Definition S : list N :=
  [ 7; 12; 17; 22; 7; 12; 17; 22; 7; 12; 17; 22; 7; 12; 17; 22;
    5; 9; 14; 20; 5; 9; 14; 20; 5; 9; 14; 20; 5; 9; 14; 20;
    4; 11; 16; 23; 4; 11; 16; 23; 4; 11; 16; 23; 4; 11; 16; 23;
    6; 10; 15; 21; 6; 10; 15; 21; 6; 10; 15; 21; 6; 10; 15; 21 ].

Record state := { sa : N; sb : N; sc : N; sd : N }.

Definition init : state :=
  {| sa := 0x67452301; sb := 0xefcdab89; sc := 0x98badcfe; sd := 0x10325476 |}.

(** A little-endian word from four bytes. *)
Definition word_of (bs : list N) : N :=
  nth 0 bs 0 + 256 * nth 1 bs 0 + 65536 * nth 2 bs 0 + 16777216 * nth 3 bs 0.

Fixpoint words (n : nat) (bs : list N) : list N :=
  match n with
  | O => []
  | Datatypes.S n' => word_of (firstn 4 bs) :: words n' (skipn 4 bs)
  end.

Definition step (M : list N) (st : state) (i : nat) : state :=
  let '(Build_state a b c d) := st in
  let j := N.of_nat i in
  let '(f, g) :=
    if j <? 16 then (N.lor (N.land b c) (N.land (not32 b) d), j)
    else if j <? 32 then
      (N.lor (N.land d b) (N.land (not32 d) c), (5 * j + 1) mod 16)
    else if j <? 48 then (N.lxor b (N.lxor c d), (3 * j + 5) mod 16)
    else (N.lxor c (N.lor b (not32 d)), (7 * j) mod 16) in
  let f' := add32 (add32 (add32 f a) (nth i K 0)) (nth (N.to_nat g) M 0) in
  {| sa := d; sb := add32 b (rotl32 f' (nth i S 0)); sc := b; sd := c |}.

Definition block (st : state) (chunk : list N) : state :=
  let M := words 16 chunk in
  let st' := fold_left (step M) (seq 0 64) st in
  {| sa := add32 (sa st) (sa st'); sb := add32 (sb st) (sb st');
     sc := add32 (sc st) (sc st'); sd := add32 (sd st) (sd st') |}.

Fixpoint blocks (n : nat) (msg : list N) (st : state) : state :=
  match n with
  | O => st
  | Datatypes.S n' => blocks n' (skipn 64 msg) (block st (firstn 64 msg))
  end.

(** The [n] little-endian bytes of [x]. *)
Fixpoint le_bytes (n : nat) (x : N) : list N :=
  match n with
  | O => []
  | Datatypes.S n' => x mod 256 :: le_bytes n' (x / 256)
  end.

Definition pad (msg : list N) : list N :=
  let len := N.of_nat (length msg) in
  let zeros := (119 - len mod 64) mod 64 in
  msg ++ [128] ++ repeat 0 (N.to_nat zeros) ++ le_bytes 8 ((8 * len) mod 2 ^ 64).

(** [hashlib.md5(data).digest()]. *)
Definition digest (data : list byte) : list byte :=
  let msg := pad (map Byte.to_N data) in
  let st := blocks (length msg / 64) msg init in
  map Utf8.byte_of_N
      (le_bytes 4 (sa st) ++ le_bytes 4 (sb st)
       ++ le_bytes 4 (sc st) ++ le_bytes 4 (sd st)).

(** [hashlib.md5(data).hexdigest()]. *)
Definition hexdigest (data : list byte) : str :=
  flat_map Hex.of_byte (digest data).

End MD5.

(* ================================================================== *)
(** ** [float] *)

Module Float.

Definition float := spec_float.

(** The binary64 value nearest to an integer (ties to even), infinite when
    the integer is beyond the range: what [float()] returns for a string of
    decimal digits. *)
Definition of_Z (n : Z) : float := binary_normalize 53 1024 n 0 false.

(** The literal [1.0]. *)
Definition one : float := S754_finite false 4503599627370496 (-52).

End Float.
Import Float.

(* ================================================================== *)
(** ** [re]: the backtracking matcher

    Regular expressions with the constructs of the script's pattern,
    compiled with [re.IGNORECASE].  [run] lists every way the expression
    matches a prefix of the subject, in the order a backtracking matcher
    tries them: the captured groups (numbered by their opening parenthesis)
    and the rest of the subject. *)

Module Regex.

Inductive regex :=
| Lit (c : char)           (* a literal character *)
| Digits                   (* [\d+], greedy *)
| Seq (r1 r2 : regex)
| Alt (r1 r2 : regex)
| Group (r : regex).

(** Case folding of the matcher.  The literals of the pattern are ASCII; no
    code point outside ASCII lower-cases to one of the letters
    b, e, g, j, m, n, p, x, so the ASCII mapping decides every comparison
    the pattern makes. *)
Definition lower (c : char) : char :=
  if Unicode.ascii_upper c then c + 32 else c.

Definition lit_match (c x : char) : bool := N.eqb (lower x) (lower c).

(** The rests of [s] after one or more characters of the class, the
    longest run first. *)
Fixpoint plus (p : char -> bool) (s : str) : list str :=
  match s with
  | x :: t => if p x then plus p t ++ [t] else []
  | [] => []
  end.

Fixpoint run (u : Unicode.db) (r : regex) (s : str) : list (list str * str) :=
  match r with
  | Lit c =>
      match s with
      | x :: t => if lit_match c x then [([], t)] else []
      | [] => []
      end
  | Digits => map (fun t => ([], t)) (plus (Unicode.isdecimal u) s)
  | Seq r1 r2 =>
      flat_map (fun m1 =>
                  map (fun m2 => (fst m1 ++ fst m2, snd m2)) (run u r2 (snd m1)))
               (run u r1 s)
  | Alt r1 r2 => run u r1 s ++ run u r2 s
  | Group r1 =>
      map (fun m => (firstn (length s - length (snd m)) s :: fst m, snd m))
          (run u r1 s)
  end.

(** [re.search]: the first match at the leftmost position that has one. *)
Fixpoint search (u : Unicode.db) (r : regex) (s : str) : option (list str) :=
  match run u r s with
  | m :: _ => Some (fst m)
  | [] =>
      match s with
      | [] => None
      | _ :: t => search u r t
      end
  end.

(** The word [c :: t], letter by letter. *)
Fixpoint word (c : char) (t : str) : regex :=
  match t with
  | [] => Lit c
  | d :: t' => Seq (Lit c) (word d t')
  end.

End Regex.

(* ================================================================== *)
(** ** [pathlib] *)

Module PathLib.

(** The host's path convention. *)
Inductive flavour := Posix | Windows.

Definition slash : char := 47.
Definition backslash : char := 92.
Definition dot : char := 46.
Definition colon : char := 58.

Definition sep (fl : flavour) : char :=
  match fl with Posix => slash | Windows => backslash end.

(** Windows also reads the forward slash as a separator. *)
Definition is_sep (fl : flavour) (c : char) : bool :=
  (c =? slash) || (match fl with Windows => c =? backslash | Posix => false end).

(** A path object: its components.  Drives and UNC anchors of Windows are
    not modelled; the script re-parses relative paths, which have neither. *)
Definition path := list str.

(** [Path(s)]: empty components and [.] are dropped.  For the POSIX flavour
    these are the components of [Path(s)] for every string.  For the Windows
    flavour they are so for the strings that are [anchor_free] below: in the
    others [pathlib] first splits off a drive or a UNC share, which is not a
    component ([Path('C:')] has the empty name, [Path('c:a.png')] the name
    [a.png]); that splitting is not modelled. *)
Definition parse (fl : flavour) (s : str) : path :=
  filter (fun p => negb (Str.eqb p [] || Str.eqb p [dot]))
         (split (is_sep fl) s).

(** The strings in which [pathlib] finds neither a drive nor a UNC share:
    all of them for the POSIX flavour; for the Windows flavour those whose
    second character is not a colon and that do not begin with two
    separators.  A path relative to a directory of a Windows host, as the
    collector passes, is of this kind: Windows allows no colon in a file
    name. *)
Definition anchor_free (fl : flavour) (s : str) : bool :=
  match fl with
  | Posix => true
  | Windows =>
      match s with
      | c0 :: c1 :: _ =>
          negb (c1 =? colon) && negb (is_sep Windows c0 && is_sep Windows c1)
      | _ => true
      end
  end.

(** [p.name]: the last component, empty when there is none. *)
Definition name (p : path) : str := last p [].

(** The stem of a file name: the name up to its last dot, when that dot is
    neither the first nor the last character. *)
Definition stem_of (nm : str) : str :=
  match rfind dot nm with
  | Some i => if (0 <? i)%nat && (i <? length nm - 1)%nat then firstn i nm else nm
  | None => nm
  end.

(** [p.stem]. *)
Definition stem (p : path) : str := stem_of (name p).

(** [str(p)] for a relative path: the components joined by the separator,
    with no drive or root before them. *)
Definition to_str (fl : flavour) (p : path) : str :=
  match p with
  | [] => [dot]
  | _ => join [sep fl] p
  end.

(** [p.as_posix()]. *)
Definition as_posix (fl : flavour) (p : path) : str :=
  replace (sep fl) slash (to_str fl p).

(** [p.relative_to(base)]. *)
Fixpoint relative_to (p base : path) {struct base} : result path :=
  match base with
  | [] => Ok p
  | b :: base' =>
      match p with
      | c :: p' => if Str.eqb c b then relative_to p' base' else Raise ValueError
      | [] => Raise ValueError
      end
  end.

End PathLib.
Import PathLib.

(* ================================================================== *)
(** ** The scale parser and the identifier sanitizer *)

(** The pattern [@(\d+)x\.(png|jpg|jpeg|bmp)]. *)
Definition scale_pattern : Regex.regex :=
  Regex.Seq (Regex.Lit (ch "@"))
    (Regex.Seq (Regex.Group Regex.Digits)
       (Regex.Seq (Regex.Lit (ch "x"))
          (Regex.Seq (Regex.Lit (ch "."))
             (Regex.Group
                (Regex.Alt (Regex.word (ch "p") (lit "ng"))
                   (Regex.Alt (Regex.word (ch "j") (lit "pg"))
                      (Regex.Alt (Regex.word (ch "j") (lit "peg"))
                         (Regex.word (ch "b") (lit "mp"))))))))).

(** The value of a string of decimal digits. *)
Fixpoint digits_value (u : Unicode.db) (s : str) (acc : N) : option N :=
  match s with
  | [] => Some acc
  | c :: t =>
      match Unicode.todecimal u c with
      | Some d => digits_value u t (10 * acc + d)
      | None => None
      end
  end.

(** [float(s)] on the strings the script passes to it, runs of decimal
    digits; any other string is refused here. *)
Definition py_float (u : Unicode.db) (s : str) : result float :=
  match s with
  | [] => Raise ValueError
  | _ =>
      match digits_value u s 0 with
      | Some n => Ok (Float.of_Z (Z.of_N n))
      | None => Raise ValueError
      end
  end.

Definition parse_design_scale (u : Unicode.db) (filename : str) : result float :=
  match Regex.search u scale_pattern filename with
  | Some groups => py_float u (nth 0 groups [])
  | None => Ok Float.one
  end.

(** The specification's reading of the pattern.  An image extension, in
    any mix of cases. *)
Definition image_extension (e : str) : Prop :=
  In (map Regex.lower e) [lit "png"; lit "jpg"; lit "jpeg"; lit "bmp"].

(** [s] begins with a density marker whose digits are [ds]: an at sign, the
    digits, the letter x, a dot and an image extension. *)
Definition density_marker (u : Unicode.db) (ds s : str) : Prop :=
  ds <> []
  /\ forallb (Unicode.isdecimal u) ds = true
  /\ exists x e rest,
       Regex.lower x = ch "x" /\ image_extension e
       /\ s = ch "@" :: ds ++ x :: ch "." :: e ++ rest.

(** The marker stands at offset [i] of the file name. *)
Definition marker_at (u : Unicode.db) (filename : str) (i : nat) (ds : str)
  : Prop :=
  density_marker u ds (skipn i filename).

Definition underscore : char := 95.

(** [s[0]]. *)
Definition first_char (s : str) : result char :=
  match s with
  | [] => Raise IndexError
  | c :: _ => Ok c
  end.

(** [c if c.isalnum() or c == '_' else '_']. *)
Definition sanitize_char (u : Unicode.db) (c : char) : char :=
  if Unicode.isalnum u c || (c =? underscore) then c else underscore.

Definition sanitize_identifier (fl : flavour) (u : Unicode.db) (name : str)
  : result str :=
  let stem := PathLib.stem (PathLib.parse fl name) in
  data <- Utf8.encode name ;;
  let hash_suffix := firstn 8 (MD5.hexdigest data) in
  let sanitized := map (sanitize_char u) stem in
  c0 <- first_char sanitized ;;
  let sanitized :=
    if negb (Unicode.isalpha u c0) then lit "res_" ++ sanitized
    else sanitized in
  Ok (sanitized ++ [underscore] ++ hash_suffix).

(** The symbol grammar of the specification, [[A-Za-z_][A-Za-z0-9_]*]. *)
Definition ident_start (c : char) : bool :=
  Unicode.ascii_letter c || (c =? underscore).
Definition ident_char (c : char) : bool :=
  Unicode.ascii_letter c || Unicode.ascii_digit c || (c =? underscore).
Definition symbol_grammar (s : str) : bool :=
  match s with
  | [] => false
  | c :: t => ident_start c && forallb ident_char t
  end.

(* ================================================================== *)
(** ** The file system the script reads *)

(** A regular file with its content, whether it can be opened for reading,
    and its modification time; a directory with its listing, in the order
    the host lists it; or an entry that is neither. *)
Inductive node :=
| File (readable : bool) (data : list byte) (mtime : float)
| Dir (entries : list (str * node))
| Special.

Fixpoint lookup (nm : str) (es : list (str * node)) : option node :=
  match es with
  | [] => None
  | (k, n) :: es' => if Str.eqb k nm then Some n else lookup nm es'
  end.

(** The node a path leads to from [n]. *)
Fixpoint resolve (n : node) (p : path) : option node :=
  match p with
  | [] => Some n
  | c :: p' =>
      match n with
      | Dir es =>
          match lookup c es with
          | Some n' => resolve n' p'
          | None => None
          end
      | _ => None
      end
  end.

(** [p.exists()]. *)
Definition exists_ (fs : node) (p : path) : bool :=
  match resolve fs p with Some _ => true | None => false end.

(** [p.is_file()]. *)
Definition is_file (fs : node) (p : path) : bool :=
  match resolve fs p with Some (File _ _ _) => true | _ => false end.

(** [open(p, 'rb').read()]. *)
Definition read_bytes (fs : node) (p : path) : result (list byte) :=
  match resolve fs p with
  | Some (File true data _) => Ok data
  | _ => Raise OSError
  end.

(** The file at [p] can be opened for reading. *)
Definition readable (fs : node) (p : path) : bool :=
  match resolve fs p with
  | Some (File true _ _) => true
  | _ => false
  end.

(** [p.stat()]: the size and the modification time. *)
Definition stat (fs : node) (p : path) : result (nat * float) :=
  match resolve fs p with
  | Some (File _ data mtime) => Ok (length data, mtime)
  | _ => Raise OSError
  end.

(** The paths below the directory [n], itself at path [at_]: the entries of
    [n], then the same for each of its sub-directories in turn.  This is the
    order of [Path.rglob('*')] in CPython up to 3.12; hidden entries are
    listed and hidden directories entered like the others. *)
Fixpoint rglob_from (at_ : path) (n : node) : list path :=
  match n with
  | Dir es =>
      map (fun e => at_ ++ [fst e]) es
      ++ flat_map (fun e => rglob_from (at_ ++ [fst e]) (snd e)) es
  | _ => []
  end.

(** A property of names holds of every entry of a tree. *)
Fixpoint all_names (P : str -> bool) (n : node) : bool :=
  match n with
  | Dir es => forallb (fun e => P (fst e) && all_names P (snd e)) es
  | _ => true
  end.

(** The names a host gives to directory entries are not empty and hold no
    separator. *)
Definition valid_name (fl : flavour) (nm : str) : bool :=
  negb (Str.eqb nm []) && forallb (fun c => negb (is_sep fl c)) nm.

Definition wf_names (fl : flavour) (n : node) : bool :=
  all_names (valid_name fl) n.

(** A host gives the entries of one directory different names. *)
Fixpoint distinct (l : list str) : bool :=
  match l with
  | [] => true
  | x :: t => negb (existsb (Str.eqb x) t) && distinct t
  end.

Fixpoint unique_names (n : node) : bool :=
  match n with
  | Dir es => distinct (map fst es) && forallb (fun e => unique_names (snd e)) es
  | _ => true
  end.

(** A name without lone surrogates, as the host gives when the bytes of the
    name are valid UTF-8. *)
Definition encodable (nm : str) : bool :=
  forallb (fun c => negb (Utf8.is_surrogate c)) nm.

(** [p.rglob('*')]. *)
Definition rglob (fs : node) (p : path) : list path :=
  match resolve fs p with
  | Some n => rglob_from p n
  | None => []
  end.

(* ================================================================== *)
(** ** The resource mapping *)

(** The value kept for a resource: [(file_path, normalized_path,
    design_scale)]. *)
Definition entry := (path * str * float)%type.

(** A [dict] keyed by identifier, in insertion order. *)
Definition dict := list (str * entry).

(** [k in d]. *)
Definition contains (d : dict) (k : str) : bool :=
  existsb (fun kv => Str.eqb (fst kv) k) d.

(** [d[k] = v]: the value of a key already present is replaced where it
    stands, a new key goes last. *)
Fixpoint dict_set (d : dict) (k : str) (v : entry) : dict :=
  match d with
  | [] => [(k, v)]
  | (k', v') :: d' =>
      if Str.eqb k' k then (k', v) :: d' else (k', v') :: dict_set d' k v
  end.

Definition keys (d : dict) : list str := map fst d.

(* ================================================================== *)
(** ** [collect_resources] *)

(** The loop [while identifier in resources], entered with [counter] and
    the current [identifier].  It is given a budget of iterations; the
    budget of [collect_file] is shown never to run out. *)
Fixpoint dedup (budget : nat) (resources : dict) (original_identifier : str)
  (counter : nat) (identifier : str) : result str :=
  if contains resources identifier then
    match budget with
    | O => Raise LoopBudget
    | S budget' =>
        dedup budget' resources original_identifier (S counter)
              (original_identifier ++ [underscore] ++ Str.of_nat counter)
    end
  else Ok identifier.

(** The identifier tried after [k] collisions: the original one, then the
    original one with the suffixes [_1], [_2] and so on. *)
Definition candidate (original : str) (k : nat) : str :=
  match k with
  | O => original
  | S _ => original ++ [underscore] ++ Str.of_nat k
  end.

(** The test of the loop: a regular file whose own name does not start
    with a dot. *)
Definition eligible (fs : node) (file_path : path) : bool :=
  is_file fs file_path && negb (startswith dot (PathLib.name file_path)).

(** The body of the loop over [input_dir.rglob('*')]. *)
Definition collect_file (fl : flavour) (u : Unicode.db) (fs : node)
  (input_dir : path) (resources : dict) (file_path : path) : result dict :=
  if eligible fs file_path then
    relative_path <- relative_to file_path input_dir ;;
    let normalized_path := as_posix fl relative_path in
    identifier <- sanitize_identifier fl u normalized_path ;;
    design_scale <- parse_design_scale u (PathLib.name file_path) ;;
    identifier <- dedup (length resources) resources identifier 1 identifier ;;
    Ok (dict_set resources identifier (file_path, normalized_path, design_scale))
  else Ok resources.

(** What the body of the loop records for a file: its path below the input
    directory, the normalized text of the relative path, the scale parsed
    from its name, under one of the candidates of its sanitized
    identifier. *)
Definition collected (fl : flavour) (u : Unicode.db) (input_dir : path)
  (kv : str * entry) : Prop :=
  let '(identifier, (file_path, normalized_path, design_scale)) := kv in
  exists rel base k,
    file_path = input_dir ++ rel
    /\ normalized_path = as_posix fl rel
    /\ sanitize_identifier fl u normalized_path = Ok base
    /\ parse_design_scale u (PathLib.name file_path) = Ok design_scale
    /\ identifier = candidate base k.

(** The keys of a mapping leave no gap: below a key with the suffix [_k]
    the sanitized identifier and its suffixes [_1] to [_(k-1)] are keys. *)
Definition gapless (fl : flavour) (u : Unicode.db) (resources : dict) : Prop :=
  forall identifier file_path normalized_path design_scale,
    In (identifier, (file_path, normalized_path, design_scale)) resources ->
    exists base k,
      sanitize_identifier fl u normalized_path = Ok base
      /\ identifier = candidate base k
      /\ forall j, (j < k)%nat -> In (candidate base j) (keys resources).

Fixpoint collect_loop (fl : flavour) (u : Unicode.db) (fs : node)
  (input_dir : path) (files : list path) (resources : dict) : result dict :=
  match files with
  | [] => Ok resources
  | file_path :: rest =>
      resources' <- collect_file fl u fs input_dir resources file_path ;;
      collect_loop fl u fs input_dir rest resources'
  end.

Definition collect_resources (fl : flavour) (u : Unicode.db) (fs : node)
  (input_dir : path) : result dict :=
  if negb (exists_ fs input_dir) then Ok []
  else collect_loop fl u fs input_dir (rglob fs input_dir) [].

(* ================================================================== *)
(** ** The emitters *)

Definition nl : str := [10].
Definition dquote : str := [34].

(** The lines of a text, each closed by a newline. *)
Definition text (lines : list str) : str := flat_map (fun l => l ++ nl) lines.

(** The value handed to [json.dump]. *)
Inductive json :=
| JString (s : str)
| JInt (n : nat)
| JFloat (f : float)
| JArray (items : list json)
| JObject (fields : list (str * json)).

(** The files written so far, by output path, and the two streams. *)
Record world := {
  files : list (str * str);
  stdout : list str;
  stderr : list str
}.

(** [j[field]] for an object. *)
Definition json_get (field : str) (j : json) : option json :=
  match j with
  | JObject fields =>
      match find (fun kv => Str.eqb (fst kv) field) fields with
      | Some kv => Some (snd kv)
      | None => None
      end
  | _ => None
  end.

Definition empty_world : world := {| files := []; stdout := []; stderr := [] |}.

(** [open(p, 'w').write(content)]: the file is created or overwritten.
    Failures of the output side (creating the directory, writing) are not
    modelled. *)
Fixpoint put (fsw : list (str * str)) (p content : str) : list (str * str) :=
  match fsw with
  | [] => [(p, content)]
  | (q, c) :: rest =>
      if Str.eqb q p then (q, content) :: rest else (q, c) :: put rest p content
  end.

Definition write (p content : str) (w : world) : world :=
  {| files := put (files w) p content; stdout := stdout w; stderr := stderr w |}.


Section Emitters.

(** [repr] of a float and [json.dump(..., indent=2, ensure_ascii=False)]
    belong to the Python library, not to the script. *)
Variable float_repr : float -> str.
Variable json_dump : json -> str.

Definition header_prologue (namespace : str) : str :=
  text [ lit "#pragma once";
         [];
         lit "#include <cstddef>";
         lit "#include <string_view>";
         [];
         lit "namespace " ++ namespace ++ lit " {";
         [];
         lit "struct ResourceData {";
         lit "    const unsigned char* data;";
         lit "    size_t size;";
         lit "    std::string_view path;";
         lit "    float designScale;";
         lit "};";
         [] ].

Definition header_declaration (identifier : str) : str :=
  lit "extern const ResourceData " ++ identifier ++ lit ";" ++ nl.

Definition header_epilogue (namespace : str) : str :=
  text [ [];
         lit "const ResourceData* findResource(std::string_view path);";
         lit "const ResourceData* getAllResources();";
         lit "size_t getResourceCount();";
         [];
         lit "} // namespace " ++ namespace ].

Definition header_content (resources : dict) (namespace : str) : str :=
  let header_content := header_prologue namespace in
  let header_content :=
    fold_left (fun acc kv => acc ++ header_declaration (fst kv))
              resources header_content in
  header_content ++ header_epilogue namespace.

Definition generate_header (resources : dict) (namespace output_path : str)
  (w : world) : result unit * world :=
  (Ok tt, write output_path (header_content resources namespace) w).

Definition source_prologue (namespace header_name : str) : str :=
  text [ lit "#include " ++ dquote ++ header_name ++ dquote;
         lit "#include <array>";
         lit "#include <string_view>";
         lit "#include <algorithm>";
         [];
         lit "namespace " ++ namespace ++ lit " {";
         [] ].

(** [', '.join(f'0x{b:02x}' for b in data)]. *)
Definition hex_data (data : list byte) : str :=
  join (lit ", ") (map (fun b => lit "0x" ++ Hex.of_byte b) data).

(** The text emitted for one resource: the byte array and the record. *)
Definition resource_block (identifier : str) (data : list byte)
  (relative_path : str) (design_scale : float) : str :=
  text [ lit "static const unsigned char " ++ identifier ++ lit "_data[] = {";
         lit "    " ++ hex_data data;
         lit "};";
         [];
         lit "const ResourceData " ++ identifier ++ lit " = {";
         lit "    " ++ identifier ++ lit "_data,";
         lit "    " ++ Str.of_nat (length data) ++ lit ",";
         lit "    " ++ dquote ++ relative_path ++ dquote ++ lit ",";
         lit "    " ++ float_repr design_scale ++ lit "f";
         lit "};";
         [] ].

(** The block of an item of the mapping, given the bytes read for it. *)
Definition block_of (x : (str * entry) * list byte) : str :=
  let '((identifier, (_, relative_path, design_scale)), data) := x in
  resource_block identifier data relative_path design_scale.

(** The first loop of [generate_source]: every file is read in turn and its
    block appended. *)
Fixpoint source_blocks (fs : node) (items : dict) (source_content : str)
  : result str :=
  match items with
  | [] => Ok source_content
  | (identifier, (file_path, relative_path, design_scale)) :: rest =>
      data <- read_bytes fs file_path ;;
      source_blocks fs rest
        (source_content
         ++ resource_block identifier data relative_path design_scale)
  end.

Definition array_open (count : nat) : str :=
  lit "static const std::array<ResourceData, " ++ Str.of_nat count
  ++ lit "> all_resources = {{" ++ nl.

Definition array_item (identifier : str) : str :=
  lit "    " ++ identifier ++ lit "," ++ nl.

Definition source_epilogue (namespace : str) : str :=
  text [ lit "}};";
         [];
         lit "const ResourceData* findResource(std::string_view path) {";
         lit "    auto it = std::find_if(all_resources.begin(), all_resources.end(),";
         lit "        [path](const ResourceData& res) { return res.path == path; });";
         lit "    return (it != all_resources.end()) ? &(*it) : nullptr;";
         lit "}";
         [];
         lit "const ResourceData* getAllResources() {";
         lit "    return all_resources.data();";
         lit "}";
         [];
         lit "size_t getResourceCount() {";
         lit "    return all_resources.size();";
         lit "}";
         [];
         lit "} // namespace " ++ namespace ].

Definition source_content (fs : node) (resources : dict)
  (namespace header_name : str) : result str :=
  source_content <-
    source_blocks fs resources (source_prologue namespace header_name) ;;
  let source_content := source_content ++ array_open (length resources) in
  let source_content :=
    fold_left (fun acc identifier => acc ++ array_item identifier)
              (keys resources) source_content in
  Ok (source_content ++ source_epilogue namespace).

Definition generate_source (fs : node) (resources : dict)
  (namespace header_name output_path : str) (w : world)
  : result unit * world :=
  match source_content fs resources namespace header_name with
  | Ok content => (Ok tt, write output_path content w)
  | Raise e => (Raise e, w)
  end.

Definition index_record (identifier relative_path : str)
  (design_scale : float) (st : nat * float) : json :=
  JObject [ (lit "identifier", JString identifier);
            (lit "path", JString relative_path);
            (lit "designScale", JFloat design_scale);
            (lit "size", JInt (fst st));
            (lit "modified", JFloat (snd st)) ].

(** The record of an item of the mapping, given the result of [stat]. *)
Definition record_of (x : (str * entry) * (nat * float)) : json :=
  let '((identifier, (_, relative_path, design_scale)), st) := x in
  index_record identifier relative_path design_scale st.

(** The loop of [generate_index], appending to the list under
    [resources]. *)
Fixpoint index_records (fs : node) (items : dict) (acc : list json)
  : result (list json) :=
  match items with
  | [] => Ok acc
  | (identifier, (file_path, relative_path, design_scale)) :: rest =>
      st <- stat fs file_path ;;
      index_records fs rest
        (acc ++ [index_record identifier relative_path design_scale st])
  end.

Definition index_data (fs : node) (resources : dict) : result json :=
  records <- index_records fs resources [] ;;
  Ok (JObject [ (lit "resources", JArray records) ]).

Definition generate_index (fs : node) (resources : dict) (output_path : str)
  (w : world) : result unit * world :=
  match index_data fs resources with
  | Ok data => (Ok tt, write output_path (json_dump data) w)
  | Raise e => (Raise e, w)
  end.

(* ================================================================== *)
(** ** [main] *)

(** The command line.  The input directory is given by its components below
    the root of the tree the run reads, and is printed as that relative
    path; the output directory and the file names are kept as text. *)
Record args := {
  arg_input_dir : path;
  arg_output_dir : str;
  arg_namespace : str;
  arg_header_file : str;
  arg_source_file : str
}.

(** [output_dir / name], kept as text: an output file is known by the text
    of its path.  Two texts that name one file (a file name such as [./x.h]
    beside [x.h]) are kept apart. *)
Definition joinpath (dir name : str) : str := dir ++ [slash] ++ name.

Definition print_out (line : str) (w : world) : world :=
  {| files := files w; stdout := stdout w ++ [line]; stderr := stderr w |}.

Definition print_err (line : str) (w : world) : world :=
  {| files := files w; stdout := stdout w; stderr := stderr w ++ [line] |}.

(** Sequencing of steps that change the world and may raise. *)
Definition andthen (m : world -> result unit * world)
  (k : world -> result unit * world) (w : world) : result unit * world :=
  match m w with
  | (Ok _, w') => k w'
  | (Raise e, w') => (Raise e, w')
  end.

(** The run.  The tree [fs] is what the run reads; what it writes goes to
    the [world] and is not read back: an output file that is itself one of
    the resources is not modelled. *)
Definition main (fl : flavour) (u : Unicode.db) (fs : node) (a : args)
  (w : world) : result unit * world :=
  match collect_resources fl u fs (arg_input_dir a) with
  | Raise e => (Raise e, w)
  | Ok resources =>
      let w :=
        match resources with
        | [] => print_err (lit "Warning: No resources found in "
                           ++ to_str fl (arg_input_dir a)) w
        | _ => w
        end in
      let header_path := joinpath (arg_output_dir a) (arg_header_file a) in
      let source_path := joinpath (arg_output_dir a) (arg_source_file a) in
      let index_path := joinpath (arg_output_dir a) (lit "resource_index.json") in
      andthen (generate_header resources (arg_namespace a) header_path)
        (andthen (generate_source fs resources (arg_namespace a)
                    (arg_header_file a) source_path)
           (andthen (generate_index fs resources index_path)
              (fun w => (Ok tt,
                         print_out (lit "Generated "
                                    ++ Str.of_nat (length resources)
                                    ++ lit " embedded resources") w)))) w
  end.

End Emitters.

(* ================================================================== *)
(** ** Sample inputs

    Trees, arguments and library functions on which the properties below
    are exercised. *)

Module Sample.

(** A stand-in for [repr] of a float: it is [repr] on zero, on infinity and
    on the whole numbers below 10^16, which Python prints with all their
    digits and [.0]; these are the floats the scale parser produces from
    digit strings of up to sixteen digits.  Any other float is rendered as
    [nan] here, which is not what [repr] gives. *)
Definition repr_integral (f : float) : str :=
  match f with
  | S754_zero false => lit "0.0"
  | S754_infinity false => lit "inf"
  | S754_finite false m e =>
      match e with
      | Zneg k =>
          if (Npos m mod 2 ^ Npos k =? 0)
             && (Npos m / 2 ^ Npos k <? 10000000000000000)
          then Str.of_nat (N.to_nat (Npos m / 2 ^ Npos k)) ++ lit ".0"
          else lit "nan"
      | _ =>
          if Npos m * 2 ^ Z.to_N e <? 10000000000000000
          then Str.of_nat (N.to_nat (Npos m * 2 ^ Z.to_N e)) ++ lit ".0"
          else lit "nan"
      end
  | _ => lit "nan"
  end.

(** A stand-in for [json.dump]: the number of records of the index. *)
Definition count_records (j : json) : str :=
  match json_get (lit "resources") j with
  | Some (JArray records) => Str.of_nat (length records)
  | _ => []
  end.

Definition png_bytes : list byte := [x89; x50; x4e; x47; x0d; x0a; x1a; x0a].

Definition mtime : float := Float.of_Z 1700000000.

(** [assets/icons/a@2x.png]. *)
Definition nested : node :=
  Dir [ (lit "assets",
         Dir [ (lit "icons",
                Dir [ (lit "a@2x.png", File true png_bytes mtime) ]) ]) ].

(** A file in a hidden directory, next to a hidden file and a plain one. *)
Definition hidden : node :=
  Dir [ (lit ".cache", Dir [ (lit "logo.png", File true png_bytes mtime) ]);
        (lit ".secret.png", File true png_bytes mtime);
        (lit "plain.png", File true [x00; xff] mtime) ].

(** Two files whose names have the same sanitized stem and whose MD5
    digests begin with the same eight hexadecimal digits, [8f000805]. *)
Definition colliding : node :=
  Dir [ (lit "icon-%&!=!.png", File true [x01] mtime);
        (lit "icon++%+  .png", File true [x02] mtime) ].

(** A file that cannot be opened for reading. *)
Definition unreadable : node :=
  Dir [ (lit "a.png", File false png_bytes mtime) ].

Definition arguments : args := {|
  arg_input_dir := [];
  arg_output_dir := lit "out";
  arg_namespace := lit "Resources";
  arg_header_file := lit "embedded_resources.h";
  arg_source_file := lit "embedded_resources.cpp"
|}.

(** The mapping collected from [nested] on a host whose separator is the
    backslash. *)
Definition nested_resources : dict :=
  [ (lit "a_2x_eadcf878",
     ([lit "assets"; lit "icons"; lit "a@2x.png"],
      lit "assets/icons/a@2x.png",
      S754_finite false 4503599627370496 (-51))) ].

(** The mappings collected from [colliding] and from [hidden]. *)
Definition colliding_resources : dict :=
  [ (lit "icon_______8f000805",
     ([lit "icon-%&!=!.png"], lit "icon-%&!=!.png", Float.one));
    (lit "icon_______8f000805_1",
     ([lit "icon++%+  .png"], lit "icon++%+  .png", Float.one)) ].

Definition hidden_resources : dict :=
  [ (lit "plain_33c11a06", ([lit "plain.png"], lit "plain.png", Float.one));
    (lit "logo_389e3531",
     ([lit ".cache"; lit "logo.png"], lit ".cache/logo.png", Float.one)) ].

End Sample.

(* ================================================================== *)
(** * Properties *)

Lemma Ok_inj {A : Type} (a b : A) : Ok a = Ok b -> a = b.
Proof. congruence. Qed.

(** ** Strings *)

Lemma str_eqb_eq (s t : str) : Str.eqb s t = true <-> s = t.
Proof.
  unfold Str.eqb. destruct (list_eq_dec N.eq_dec s t); split; congruence.
Qed.

Lemma str_eqb_refl (s : str) : Str.eqb s s = true.
Proof. now apply str_eqb_eq. Qed.

Lemma str_eqb_neq (s t : str) : Str.eqb s t = false <-> s <> t.
Proof.
  unfold Str.eqb. destruct (list_eq_dec N.eq_dec s t); split; congruence.
Qed.

Lemma ascii_of_N_of_ascii_list (l : list ascii) :
  map ascii_of_N (map N_of_ascii l) = l.
Proof.
  induction l as [|a l IH]; simpl; [reflexivity|].
  now rewrite ascii_N_embedding, IH.
Qed.

Lemma to_nat_of_nat (n : nat) : Str.to_nat (Str.of_nat n) = Some n.
Proof.
  unfold Str.to_nat, Str.of_nat, lit.
  rewrite ascii_of_N_of_ascii_list, string_of_list_ascii_of_string.
  rewrite DecimalString.NilEmpty.usu. simpl. now rewrite DecimalNat.Unsigned.of_to.
Qed.

Lemma of_nat_inj (n m : nat) : Str.of_nat n = Str.of_nat m -> n = m.
Proof.
  intros H. apply (f_equal Str.to_nat) in H.
  rewrite !to_nat_of_nat in H. congruence.
Qed.

(** ** Hexadecimal *)

Lemma hex_value_digit (n : N) : n < 16 -> Hex.value (Hex.digit n) = Some n.
Proof.
  intros H. unfold Hex.value, Hex.digit.
  destruct (N.ltb_spec n 10).
  - assert (E : (48 <=? 48 + n) && (48 + n <=? 57) = true)
      by (apply andb_true_iff; split; apply N.leb_le; lia).
    rewrite E. f_equal. lia.
  - assert (E1 : (48 <=? 87 + n) && (87 + n <=? 57) = false)
      by (apply andb_false_iff; right; apply N.leb_gt; lia).
    assert (E2 : (97 <=? 87 + n) && (87 + n <=? 102) = true)
      by (apply andb_true_iff; split; apply N.leb_le; lia).
    rewrite E1, E2. f_equal. lia.
Qed.

Lemma hex_digit_is_hexdigit (n : N) : n < 16 -> Hex.is_hexdigit (Hex.digit n) = true.
Proof.
  intros H. unfold Hex.is_hexdigit, Hex.digit.
  destruct (N.ltb_spec n 10); apply orb_true_iff; [left|right];
    apply andb_true_iff; split; apply N.leb_le; lia.
Qed.

Lemma byte_to_N_bound (b : byte) : Byte.to_N b < 256.
Proof. pose proof (Byte.to_N_bounded b). lia. Qed.

Lemma hex_decode_of_byte (b : byte) (rest : str) :
  Hex.decode (lit "0x" ++ Hex.of_byte b ++ rest) =
  match rest with
  | [] => Some [b]
  | 44 :: 32 :: rest' => option_map (cons b) (Hex.decode rest')
  | _ => None
  end.
Proof.
  pose proof (byte_to_N_bound b) as Hb.
  assert (Hhi : Byte.to_N b / 16 < 16) by (apply N.Div0.div_lt_upper_bound; lia).
  assert (Hlo : Byte.to_N b mod 16 < 16) by (apply N.mod_lt; lia).
  change (lit "0x" ++ Hex.of_byte b ++ rest)
    with (48 :: 120 :: Hex.digit (Byte.to_N b / 16)
             :: Hex.digit (Byte.to_N b mod 16) :: rest).
  cbn [Hex.decode].
  rewrite (hex_value_digit Hhi), (hex_value_digit Hlo).
  replace (16 * (Byte.to_N b / 16) + Byte.to_N b mod 16) with (Byte.to_N b)
    by (rewrite (N.div_mod' (Byte.to_N b) 16) at 1; reflexivity).
  rewrite Byte.of_to_N. reflexivity.
Qed.

Lemma hex_data_cons (b : byte) (data : list byte) :
  hex_data (b :: data) =
  lit "0x" ++ Hex.of_byte b ++
  match data with [] => [] | _ => lit ", " ++ hex_data data end.
Proof.
  unfold hex_data. destruct data as [|b' data]; simpl; reflexivity.
Qed.

(** The byte-array literal reads back as the bytes it was made from. *)
Lemma hex_decode_hex_data (data : list byte) :
  Hex.decode (hex_data data) = Some data.
Proof.
  induction data as [|b data IH]; [reflexivity|].
  rewrite hex_data_cons, hex_decode_of_byte.
  destruct data as [|b' data]; [reflexivity|].
  change (lit ", " ++ hex_data (b' :: data))
    with (44 :: 32 :: hex_data (b' :: data)).
  cbv iota. rewrite IH. reflexivity.
Qed.

(** ** The source emitter *)

Section SourceEmitter.

Variable float_repr : float -> str.

(** The first loop of the emitter reads every file, in order, and appends
    one block per item. *)
Lemma source_blocks_spec (fs : node) (items : dict) :
  forall acc out,
    source_blocks float_repr fs items acc = Ok out ->
    exists datas,
      Forall2 (fun item data => read_bytes fs (fst (fst (snd item))) = Ok data)
              items datas
      /\ out = acc ++ flat_map (block_of float_repr) (combine items datas).
Proof.
  induction items as [|[identifier [[file_path relative_path] design_scale]] rest IH];
    intros acc out H; simpl in H.
  - exists []. split; [constructor|]. simpl. rewrite app_nil_r. congruence.
  - destruct (read_bytes fs file_path) as [data|e] eqn:Hread; simpl in H;
      [|discriminate].
    apply IH in H. destruct H as (datas & Hall & ->).
    exists (data :: datas). split.
    + constructor; [exact Hread|exact Hall].
    + simpl. rewrite <- app_assoc. reflexivity.
Qed.


Lemma fold_left_append {A : Type} (f : A -> str) (l : list A) (acc : str) :
  fold_left (fun a x => a ++ f x) l acc = acc ++ flat_map f l.
Proof.
  revert acc. induction l as [|x l IH]; intros acc; simpl.
  - now rewrite app_nil_r.
  - rewrite IH, <- app_assoc. reflexivity.
Qed.

(** The whole source text: prologue, one block per resource, the array of
    all records, epilogue. *)
Lemma source_content_spec (fs : node) (resources : dict)
  (namespace header_name content : str) :
  source_content float_repr fs resources namespace header_name = Ok content ->
  exists datas,
    Forall2 (fun item data => read_bytes fs (fst (fst (snd item))) = Ok data)
            resources datas
    /\ content =
       source_prologue namespace header_name
       ++ flat_map (block_of float_repr) (combine resources datas)
       ++ array_open (length resources)
       ++ flat_map array_item (keys resources)
       ++ source_epilogue namespace.
Proof.
  unfold source_content. intros H.
  destruct (source_blocks float_repr fs resources
              (source_prologue namespace header_name)) as [out|e] eqn:Hb;
    cbn [bind] in H; [|discriminate].
  apply source_blocks_spec in Hb. destruct Hb as (datas & Hall & ->).
  exists datas. split; [exact Hall|].
  apply Ok_inj in H. subst content. rewrite fold_left_append.
  repeat rewrite <- app_assoc. reflexivity.
Qed.

Lemma infix_flat_map {A : Type} (f : A -> str) (l : list A) (x : A) :
  In x l -> Str.infix (f x) (flat_map f l).
Proof.
  induction l as [|y l IH]; intros Hin; [contradiction|].
  destruct Hin as [->|Hin].
  - exists [], (flat_map f l). reflexivity.
  - destruct (IH Hin) as (pre & post & E).
    exists (f y ++ pre), post. simpl. rewrite E, <- app_assoc. reflexivity.
Qed.

Lemma infix_middle (t pre post : str) :
  forall s, Str.infix t s -> Str.infix t (pre ++ s ++ post).
Proof.
  intros s (a & b & ->). exists (pre ++ a), (b ++ post).
  repeat rewrite <- app_assoc. reflexivity.
Qed.

Lemma Forall2_combine_In {A B : Type} (R : A -> B -> Prop) (l : list A) (l' : list B) :
  Forall2 R l l' ->
  forall x, In x l -> exists y, In (x, y) (combine l l') /\ R x y.
Proof.
  induction 1 as [|a b l l' Hab Hall IH]; intros x Hin; [contradiction|].
  destruct Hin as [->|Hin].
  - exists b. split; [now left|exact Hab].
  - destruct (IH x Hin) as (y & Hy & Hr). exists y. split; [now right|exact Hr].
Qed.

End SourceEmitter.

(** The block of every resource stands in the source text, with the
    length and the bytes of the file read for it. *)
Lemma source_blocks_in_content
  (float_repr : float -> str) (fs : node) (resources : dict)
  (namespace header_name content : str) :
  source_content float_repr fs resources namespace header_name = Ok content ->
  forall identifier file_path relative_path design_scale,
    In (identifier, (file_path, relative_path, design_scale)) resources ->
    exists data size literal,
      read_bytes fs file_path = Ok data
      /\ size = Str.of_nat (length data)
      /\ Str.to_nat size = Some (length data)
      /\ literal = join (lit ", ") (map (fun b => lit "0x" ++ Hex.of_byte b) data)
      /\ Hex.decode literal = Some data
      /\ Str.infix
           (text [ lit "static const unsigned char " ++ identifier ++ lit "_data[] = {";
                   lit "    " ++ literal;
                   lit "};";
                   [];
                   lit "const ResourceData " ++ identifier ++ lit " = {";
                   lit "    " ++ identifier ++ lit "_data,";
                   lit "    " ++ size ++ lit ",";
                   lit "    " ++ dquote ++ relative_path ++ dquote ++ lit ",";
                   lit "    " ++ float_repr design_scale ++ lit "f";
                   lit "};";
                   [] ])
           content.
Proof.
  intros Hsrc identifier file_path relative_path design_scale Hin.
  apply source_content_spec in Hsrc. destruct Hsrc as (datas & Hall & ->).
  destruct (Forall2_combine_In Hall _ Hin) as (data & Hcomb & Hread).
  simpl in Hread.
  exists data, (Str.of_nat (length data)), (hex_data data).
  repeat split; try assumption.
  - apply to_nat_of_nat.
  - apply hex_decode_hex_data.
  - apply infix_middle.
    apply (infix_flat_map (block_of float_repr) _ _ Hcomb).
Qed.

Lemma readable_read_bytes (fs : node) (p : path) :
  readable fs p = true -> exists data, read_bytes fs p = Ok data.
Proof.
  unfold readable, read_bytes.
  destruct (resolve fs p) as [[[|] data mtime| |]|]; try discriminate. eauto.
Qed.

Lemma readable_stat (fs : node) (p : path) :
  readable fs p = true -> exists st, stat fs p = Ok st.
Proof.
  unfold readable, stat.
  destruct (resolve fs p) as [[[|] data mtime| |]|]; try discriminate. eauto.
Qed.

Lemma source_blocks_returns (float_repr : float -> str) (fs : node) (items : dict) :
  forallb (fun kv => readable fs (fst (fst (snd kv)))) items = true ->
  forall acc, exists out, source_blocks float_repr fs items acc = Ok out.
Proof.
  induction items as [|[identifier [[file_path relative_path] design_scale]] rest IH];
    cbn [forallb source_blocks fst snd]; [eauto|].
  intros H acc. apply andb_true_iff in H. destruct H as [Hr H].
  destruct (readable_read_bytes fs file_path Hr) as (data & ->). cbn [bind].
  apply IH. exact H.
Qed.

Lemma source_content_returns (float_repr : float -> str) (fs : node)
  (resources : dict) (namespace header_name : str) :
  forallb (fun kv => readable fs (fst (fst (snd kv)))) resources = true ->
  exists content,
    source_content float_repr fs resources namespace header_name = Ok content.
Proof.
  intros H. unfold source_content.
  destruct (source_blocks_returns float_repr fs resources H
              (source_prologue namespace header_name)) as (out & ->).
  cbn [bind]. eauto.
Qed.

(** C1.  When the files of the mapping can be read, the source emitter
    produces its text, and every resource of the mapping has a block in it
    whose [size] field is the decimal numeral of the number of bytes read
    from its file, and whose byte-array literal is those bytes, each as [0x]
    and two hexadecimal digits, separated by commas, in order: both read
    back as the length and as the bytes. *)
Theorem source_size_and_bytes_match_file
  (float_repr : float -> str) (fs : node) (resources : dict)
  (namespace header_name : str) :
  forallb (fun kv => readable fs (fst (fst (snd kv)))) resources = true ->
  exists content,
    source_content float_repr fs resources namespace header_name = Ok content
    /\ forall identifier file_path relative_path design_scale,
         In (identifier, (file_path, relative_path, design_scale)) resources ->
         exists data size literal,
           read_bytes fs file_path = Ok data
           /\ size = Str.of_nat (length data)
           /\ Str.to_nat size = Some (length data)
           /\ literal
              = join (lit ", ") (map (fun b => lit "0x" ++ Hex.of_byte b) data)
           /\ Hex.decode literal = Some data
           /\ Str.infix
                (text [ lit "static const unsigned char " ++ identifier
                          ++ lit "_data[] = {";
                        lit "    " ++ literal;
                        lit "};";
                        [];
                        lit "const ResourceData " ++ identifier ++ lit " = {";
                        lit "    " ++ identifier ++ lit "_data,";
                        lit "    " ++ size ++ lit ",";
                        lit "    " ++ dquote ++ relative_path ++ dquote
                          ++ lit ",";
                        lit "    " ++ float_repr design_scale ++ lit "f";
                        lit "};";
                        [] ])
                content.
Proof.
  intros Hread.
  destruct (source_content_returns float_repr fs resources namespace
              header_name Hread) as (content & Hsrc).
  exists content. split; [exact Hsrc|].
  intros identifier file_path relative_path design_scale Hin.
  exact (source_blocks_in_content float_repr fs resources namespace header_name
           Hsrc identifier file_path relative_path design_scale Hin).
Qed.

(** ** The header and index emitters *)

Lemma flat_map_map {A B : Type} (f : B -> str) (g : A -> B) (l : list A) :
  flat_map f (map g l) = flat_map (fun x => f (g x)) l.
Proof. induction l as [|x l IH]; simpl; [reflexivity|now rewrite IH]. Qed.

Lemma header_content_spec (resources : dict) (namespace : str) :
  header_content resources namespace =
  header_prologue namespace
  ++ flat_map header_declaration (keys resources)
  ++ header_epilogue namespace.
Proof.
  unfold header_content, keys. rewrite fold_left_append, <- app_assoc.
  rewrite flat_map_map. reflexivity.
Qed.

Lemma index_records_spec (fs : node) (items : dict) :
  forall acc out,
    index_records fs items acc = Ok out ->
    exists stats,
      Forall2 (fun item st => stat fs (fst (fst (snd item))) = Ok st) items stats
      /\ out = acc ++ map record_of (combine items stats).
Proof.
  induction items as [|[identifier [[file_path relative_path] design_scale]] rest IH];
    intros acc out H; cbn [index_records] in H.
  - exists []. split; [constructor|]. simpl. rewrite app_nil_r. congruence.
  - destruct (stat fs file_path) as [st|e] eqn:Hst; cbn [bind] in H;
      [|discriminate].
    apply IH in H. destruct H as (stats & Hall & ->).
    exists (st :: stats). split.
    + constructor; [exact Hst|exact Hall].
    + simpl. rewrite <- app_assoc. reflexivity.
Qed.

Lemma Forall2_length_eq {A B : Type} (R : A -> B -> Prop) (l : list A) (l' : list B) :
  Forall2 R l l' -> length l = length l'.
Proof. induction 1; simpl; congruence. Qed.

Lemma index_records_returns (fs : node) (items : dict) :
  forallb (fun kv => readable fs (fst (fst (snd kv)))) items = true ->
  forall acc, exists out, index_records fs items acc = Ok out.
Proof.
  induction items as [|[identifier [[file_path relative_path] design_scale]] rest IH];
    cbn [forallb index_records fst snd]; [eauto|].
  intros H acc. apply andb_true_iff in H. destruct H as [Hr H].
  destruct (readable_stat fs file_path Hr) as (st & ->). cbn [bind].
  apply IH. exact H.
Qed.

(** C8.  When the files of the mapping can be read, the source text and the
    index are produced, and the three artifacts enumerate the entries of the
    mapping, each in the order of the mapping: the header holds one
    [extern] declaration per identifier, between its fixed opening and
    closing lines; the source holds one block per entry, with the bytes read
    from the entry's file, then the array [all_resources], declared with the
    number of entries and listing the identifiers; the index holds one
    record per entry, with the result of [stat] on the entry's file.  So the
    index has as many records as the source has [ResourceData] records and
    array items: the number of entries. *)
Theorem emitters_enumerate_the_mapping_in_order
  (float_repr : float -> str) (fs : node) (resources : dict)
  (namespace header_name : str) :
  forallb (fun kv => readable fs (fst (fst (snd kv)))) resources = true ->
  exists src idx datas stats,
    source_content float_repr fs resources namespace header_name = Ok src
    /\ index_data fs resources = Ok idx
    /\ Forall2 (fun kv data => read_bytes fs (fst (fst (snd kv))) = Ok data)
               resources datas
    /\ Forall2 (fun kv st => stat fs (fst (fst (snd kv))) = Ok st)
               resources stats
    /\ length datas = length resources
    /\ length stats = length resources
    /\ header_content resources namespace =
         text [ lit "#pragma once";
                [];
                lit "#include <cstddef>";
                lit "#include <string_view>";
                [];
                lit "namespace " ++ namespace ++ lit " {";
                [];
                lit "struct ResourceData {";
                lit "    const unsigned char* data;";
                lit "    size_t size;";
                lit "    std::string_view path;";
                lit "    float designScale;";
                lit "};";
                [] ]
         ++ flat_map
              (fun identifier =>
                 lit "extern const ResourceData " ++ identifier ++ lit ";" ++ nl)
              (map fst resources)
         ++ text [ [];
                   lit "const ResourceData* findResource(std::string_view path);";
                   lit "const ResourceData* getAllResources();";
                   lit "size_t getResourceCount();";
                   [];
                   lit "} // namespace " ++ namespace ]
    /\ src =
         text [ lit "#include " ++ dquote ++ header_name ++ dquote;
                lit "#include <array>";
                lit "#include <string_view>";
                lit "#include <algorithm>";
                [];
                lit "namespace " ++ namespace ++ lit " {";
                [] ]
         ++ flat_map
              (fun x : (str * entry) * list byte =>
                 let '((identifier, (_, relative_path, design_scale)), data) := x in
                 text [ lit "static const unsigned char " ++ identifier
                          ++ lit "_data[] = {";
                        lit "    "
                          ++ join (lit ", ")
                               (map (fun b => lit "0x" ++ Hex.of_byte b) data);
                        lit "};";
                        [];
                        lit "const ResourceData " ++ identifier ++ lit " = {";
                        lit "    " ++ identifier ++ lit "_data,";
                        lit "    " ++ Str.of_nat (length data) ++ lit ",";
                        lit "    " ++ dquote ++ relative_path ++ dquote
                          ++ lit ",";
                        lit "    " ++ float_repr design_scale ++ lit "f";
                        lit "};";
                        [] ])
              (combine resources datas)
         ++ (lit "static const std::array<ResourceData, "
             ++ Str.of_nat (length resources)
             ++ lit "> all_resources = {{" ++ nl)
         ++ flat_map (fun identifier => lit "    " ++ identifier ++ lit "," ++ nl)
                     (map fst resources)
         ++ text [ lit "}};";
                   [];
                   lit "const ResourceData* findResource(std::string_view path) {";
                   lit "    auto it = std::find_if(all_resources.begin(), all_resources.end(),";
                   lit "        [path](const ResourceData& res) { return res.path == path; });";
                   lit "    return (it != all_resources.end()) ? &(*it) : nullptr;";
                   lit "}";
                   [];
                   lit "const ResourceData* getAllResources() {";
                   lit "    return all_resources.data();";
                   lit "}";
                   [];
                   lit "size_t getResourceCount() {";
                   lit "    return all_resources.size();";
                   lit "}";
                   [];
                   lit "} // namespace " ++ namespace ]
    /\ idx =
         JObject
           [ (lit "resources",
              JArray
                (map
                   (fun x : (str * entry) * (nat * float) =>
                      let '((identifier, (_, relative_path, design_scale)), st) := x in
                      JObject [ (lit "identifier", JString identifier);
                                (lit "path", JString relative_path);
                                (lit "designScale", JFloat design_scale);
                                (lit "size", JInt (fst st));
                                (lit "modified", JFloat (snd st)) ])
                   (combine resources stats))) ].
Proof.
  intros Hread.
  destruct (source_content_returns float_repr fs resources namespace
              header_name Hread) as (src & Hsrc).
  destruct (index_records_returns fs resources Hread []) as (records & Hrec).
  destruct (source_content_spec float_repr fs resources namespace header_name
              Hsrc) as (datas & Hreads & Es).
  destruct (index_records_spec fs resources [] Hrec) as (stats & Hstats & Er).
  exists src, (JObject [ (lit "resources", JArray records) ]), datas, stats.
  split; [exact Hsrc|].
  split; [unfold index_data; rewrite Hrec; reflexivity|].
  split; [exact Hreads|].
  split; [exact Hstats|].
  split; [symmetry; exact (Forall2_length_eq Hreads)|].
  split; [symmetry; exact (Forall2_length_eq Hstats)|].
  split; [rewrite header_content_spec; reflexivity|].
  split; [rewrite Es; reflexivity|].
  rewrite Er. reflexivity.
Qed.

(** ** The matcher *)

Section Matcher.

Variable u : Unicode.db.

Lemma in_run_lit (c : char) (s : str) (g : list str) (r : str) :
  In (g, r) (Regex.run u (Regex.Lit c) s) <->
  exists x, s = x :: r /\ Regex.lower x = Regex.lower c /\ g = [].
Proof.
  cbn [Regex.run]. unfold Regex.lit_match. split.
  - destruct s as [|x t]; [intros []|].
    destruct (N.eqb_spec (Regex.lower x) (Regex.lower c)) as [E|E];
      [|intros []].
    intros [H|[]]. injection H as <- <-. now exists x.
  - intros (x & -> & E & ->). rewrite E, N.eqb_refl. now left.
Qed.

Lemma in_plus (p : char -> bool) (s t : str) :
  In t (Regex.plus p s) <->
  exists ds, ds <> [] /\ forallb p ds = true /\ s = ds ++ t.
Proof.
  revert t. induction s as [|x s IH]; intros t; cbn [Regex.plus].
  - split; [intros []|]. intros (ds & Hne & _ & E).
    destruct ds; [congruence|discriminate].
  - destruct (p x) eqn:Hx.
    + rewrite in_app_iff, IH. split.
      * intros [(ds & Hne & Hall & ->)|[<-|[]]].
        -- exists (x :: ds). repeat split; [discriminate|].
           cbn [forallb]. now rewrite Hx.
        -- exists [x]. repeat split; [discriminate|].
           cbn [forallb]. now rewrite Hx.
      * intros (ds & Hne & Hall & E).
        destruct ds as [|d ds]; [congruence|].
        injection E as <- ->. cbn [forallb] in Hall.
        apply andb_true_iff in Hall. destruct Hall as [_ Hall].
        destruct ds as [|d' ds]; [right; now left|].
        left. exists (d' :: ds). repeat split; [discriminate|exact Hall].
    + split; [intros []|]. intros (ds & Hne & Hall & E).
      destruct ds as [|d ds]; [congruence|].
      injection E as <- ->. cbn [forallb] in Hall. rewrite Hx in Hall.
      discriminate.
Qed.

Lemma in_run_digits (s : str) (g : list str) (r : str) :
  In (g, r) (Regex.run u Regex.Digits s) <->
  g = [] /\ exists ds, ds <> [] /\ forallb (Unicode.isdecimal u) ds = true
                       /\ s = ds ++ r.
Proof.
  cbn [Regex.run]. rewrite in_map_iff. split.
  - intros (t & E & Hin). injection E as <- <-. split; [reflexivity|].
    now apply in_plus.
  - intros (-> & H). exists r. split; [reflexivity|]. now apply in_plus.
Qed.

Lemma in_run_seq (r1 r2 : Regex.regex) (s : str) (g : list str) (r : str) :
  In (g, r) (Regex.run u (Regex.Seq r1 r2) s) <->
  exists g1 s1 g2,
    In (g1, s1) (Regex.run u r1 s) /\ In (g2, r) (Regex.run u r2 s1)
    /\ g = g1 ++ g2.
Proof.
  cbn [Regex.run]. rewrite in_flat_map. split.
  - intros ([g1 s1] & H1 & H2). apply in_map_iff in H2.
    destruct H2 as ([g2 s2] & E & H2). cbn [fst snd] in *.
    injection E as <- <-. now exists g1, s1, g2.
  - intros (g1 & s1 & g2 & H1 & H2 & ->). exists (g1, s1). split; [exact H1|].
    apply in_map_iff. exists (g2, r). split; [reflexivity|exact H2].
Qed.

Lemma in_run_alt (r1 r2 : Regex.regex) (s : str) (m : list str * str) :
  In m (Regex.run u (Regex.Alt r1 r2) s) <->
  In m (Regex.run u r1 s) \/ In m (Regex.run u r2 s).
Proof. cbn [Regex.run]. apply in_app_iff. Qed.

Lemma in_run_group (r1 : Regex.regex) (s : str) (g : list str) (r : str) :
  In (g, r) (Regex.run u (Regex.Group r1) s) <->
  exists g1, In (g1, r) (Regex.run u r1 s)
             /\ g = firstn (length s - length r) s :: g1.
Proof.
  cbn [Regex.run]. rewrite in_map_iff. split.
  - intros ([g1 s1] & E & H). cbn [fst snd] in E. injection E as <- <-.
    now exists g1.
  - intros (g1 & H & ->). now exists (g1, r).
Qed.

Lemma in_run_word (t : str) :
  forall (c : char) (s : str) (g : list str) (r : str),
    In (g, r) (Regex.run u (Regex.word c t) s) <->
    exists w, s = w ++ r /\ map Regex.lower w = map Regex.lower (c :: t)
              /\ g = [].
Proof.
  induction t as [|d t IH]; intros c s g r; cbn [Regex.word].
  - rewrite in_run_lit. split.
    + intros (x & -> & E & ->). exists [x]. cbn. now rewrite E.
    + intros (w & -> & E & ->). destruct w as [|x [|y w]]; try discriminate.
      exists x. cbn in E. injection E as E. auto.
  - rewrite in_run_seq. split.
    + intros (g1 & s1 & g2 & H1 & H2 & ->).
      apply in_run_lit in H1. destruct H1 as (x & -> & E & ->).
      apply IH in H2. destruct H2 as (w & -> & E2 & ->).
      exists (x :: w). cbn [map app]. rewrite E, E2. auto.
    + intros (w & -> & E & ->). destruct w as [|x w]; [discriminate|].
      cbn [map] in E. injection E as E E2.
      exists [], (w ++ r), []. split; [|split; [|reflexivity]].
      * apply in_run_lit. now exists x.
      * apply IH. now exists w.
Qed.

Lemma firstn_app_length {A : Type} (l r : list A) :
  firstn (length (l ++ r) - length r) (l ++ r) = l.
Proof.
  rewrite length_app, Nat.add_sub, firstn_app, Nat.sub_diag, firstn_all.
  cbn. apply app_nil_r.
Qed.

Lemma lower_at (x : char) : Regex.lower x = ch "@" <-> x = ch "@".
Proof.
  unfold Regex.lower, Unicode.ascii_upper, ch. cbn.
  destruct (N.leb_spec 65 x); destruct (N.leb_spec x 90); cbn; lia.
Qed.

Lemma lower_dot (x : char) : Regex.lower x = ch "." <-> x = ch ".".
Proof.
  unfold Regex.lower, Unicode.ascii_upper, ch. cbn.
  destruct (N.leb_spec 65 x); destruct (N.leb_spec x 90); cbn; lia.
Qed.

Lemma lower_x_not_decimal (x : char) :
  Regex.lower x = ch "x" -> Unicode.isdecimal u x = false.
Proof.
  unfold Regex.lower, Unicode.ascii_upper, ch. cbn. intros H.
  assert (Hx : x = 88 \/ x = 120)
    by (destruct (N.leb_spec 65 x); destruct (N.leb_spec x 90); cbn in H; lia).
  destruct Hx as [-> | ->]; reflexivity.
Qed.

(** What the pattern matches at the head of a subject, and what it
    captures. *)
Lemma in_run_scale_pattern (s : str) (g : list str) (r : str) :
  In (g, r) (Regex.run u scale_pattern s) <->
  exists ds x e,
    ds <> [] /\ forallb (Unicode.isdecimal u) ds = true
    /\ Regex.lower x = ch "x" /\ image_extension e
    /\ s = ch "@" :: ds ++ x :: ch "." :: e ++ r
    /\ g = [ds; e].
Proof.
  unfold scale_pattern. split.
  - intros H.
    apply in_run_seq in H. destruct H as (g1 & s1 & ga & H1 & H & ->).
    apply in_run_lit in H1. destruct H1 as (a & -> & Ea & ->).
    apply in_run_seq in H. destruct H as (g2 & s2 & gb & H2 & H & ->).
    apply in_run_group in H2. destruct H2 as (g2' & H2 & ->).
    apply in_run_digits in H2. destruct H2 as (-> & ds & Hne & Hds & ->).
    apply in_run_seq in H. destruct H as (g3 & s3 & gc & H3 & H & ->).
    apply in_run_lit in H3. destruct H3 as (x & -> & Ex & ->).
    apply in_run_seq in H. destruct H as (g4 & s4 & g5 & H4 & H & ->).
    apply in_run_lit in H4. destruct H4 as (d & -> & Ed & ->).
    apply in_run_group in H. destruct H as (g6 & H & ->).
    assert (He : exists e, s4 = e ++ r /\ image_extension e /\ g6 = []).
    { unfold image_extension.
      repeat (apply in_run_alt in H; destruct H as [H|H]);
        apply in_run_word in H; destruct H as (w & -> & E & ->);
        exists w; rewrite E; cbn; auto 10. }
    destruct He as (e & -> & He & ->).
    exists ds, x, e.
    apply (proj1 (lower_at a)) in Ea. apply (proj1 (lower_dot d)) in Ed.
    subst a d.
    repeat split; try assumption.
    cbn [app]. rewrite !firstn_app_length. reflexivity.
  - intros (ds & x & e & Hne & Hds & Ex & He & -> & ->).
    apply in_run_seq. exists [], (ds ++ x :: ch "." :: e ++ r), [ds; e].
    split; [apply in_run_lit; now exists (ch "@")|]. split; [|reflexivity].
    apply in_run_seq. exists [ds], (x :: ch "." :: e ++ r), [e].
    split.
    { apply in_run_group. exists []. split.
      - apply in_run_digits. split; [reflexivity|]. now exists ds.
      - now rewrite firstn_app_length. }
    split; [|reflexivity].
    apply in_run_seq. exists [], (ch "." :: e ++ r), [e].
    split; [apply in_run_lit; now exists x|]. split; [|reflexivity].
    apply in_run_seq. exists [], (e ++ r), [e].
    split; [apply in_run_lit; now exists (ch ".")|]. split; [|reflexivity].
    apply in_run_group. exists []. split; [|now rewrite firstn_app_length].
    unfold image_extension in He. cbn [In] in He.
    destruct He as [He|[He|[He|[He|[]]]]].
    + apply in_run_alt. left. apply in_run_word. now exists e.
    + apply in_run_alt. right. apply in_run_alt. left.
      apply in_run_word. now exists e.
    + apply in_run_alt. right. apply in_run_alt. right. apply in_run_alt. left.
      apply in_run_word. now exists e.
    + apply in_run_alt. right. apply in_run_alt. right. apply in_run_alt. right.
      apply in_run_word. now exists e.
Qed.

End Matcher.

(** ** The scale parser *)

Section Search.

Variable u : Unicode.db.
Variable r : Regex.regex.

Lemma search_first (s : str) :
  forall i m l,
    Regex.run u r (skipn i s) = m :: l ->
    (forall j, (j < i)%nat -> Regex.run u r (skipn j s) = []) ->
    Regex.search u r s = Some (fst m).
Proof.
  induction s as [|c t IH]; intros i m l Hrun Hbefore.
  - rewrite skipn_nil in Hrun. cbn [Regex.search]. now rewrite Hrun.
  - cbn [Regex.search]. destruct i as [|i].
    + cbn [skipn] in Hrun. now rewrite Hrun.
    + pose proof (Hbefore O ltac:(lia)) as H0. cbn [skipn] in H0. rewrite H0.
      apply (IH i m l); [exact Hrun|].
      intros j Hj. apply (Hbefore (S j)). lia.
Qed.

Lemma search_none (s : str) :
  (forall i, Regex.run u r (skipn i s) = []) -> Regex.search u r s = None.
Proof.
  induction s as [|c t IH]; intros Hnone; cbn [Regex.search].
  - pose proof (Hnone O) as H0. cbn [skipn] in H0. now rewrite H0.
  - pose proof (Hnone O) as H0. cbn [skipn] in H0. rewrite H0.
    apply IH. intros i. apply (Hnone (S i)).
Qed.

Lemma search_some_inv (s : str) (g : list str) :
  Regex.search u r s = Some g ->
  exists i m l, Regex.run u r (skipn i s) = m :: l /\ fst m = g.
Proof.
  induction s as [|c t IH]; cbn [Regex.search].
  - destruct (Regex.run u r []) as [|m l] eqn:E; [discriminate|].
    intros H. exists O, m, l. cbn [skipn]. split; [exact E|congruence].
  - destruct (Regex.run u r (c :: t)) as [|m l] eqn:E.
    + intros H. destruct (IH H) as (i & m & l & Hrun & Hg).
      now exists (S i), m, l.
    + intros H. exists O, m, l. cbn [skipn]. split; [exact E|congruence].
Qed.

End Search.

Section ScaleParser.

Variable u : Unicode.db.

Lemma digits_value_total (ds : str) :
  forallb (Unicode.isdecimal u) ds = true ->
  forall acc, exists n, digits_value u ds acc = Some n.
Proof.
  induction ds as [|c ds IH]; intros Hall acc; cbn [digits_value].
  - now exists acc.
  - cbn [forallb] in Hall. apply andb_true_iff in Hall.
    destruct Hall as [Hc Hall]. unfold Unicode.isdecimal in Hc.
    destruct (Unicode.todecimal u c) as [d|]; [|discriminate].
    apply IH. exact Hall.
Qed.

Lemma py_float_digits (ds : str) :
  ds <> [] -> forallb (Unicode.isdecimal u) ds = true ->
  exists n, digits_value u ds 0 = Some n
            /\ py_float u ds = Ok (Float.of_Z (Z.of_N n)).
Proof.
  intros Hne Hall. destruct (digits_value_total ds Hall 0) as (n & Hn).
  exists n. split; [exact Hn|]. unfold py_float. rewrite Hn.
  destruct ds; [congruence|reflexivity].
Qed.

(** Two runs of characters of a class, each followed by a character outside
    the class, at the head of the same string are the same run. *)
Lemma run_prefix_unique (p : char -> bool) (ds : str) :
  forall ds' x x' t t',
    forallb p ds = true -> forallb p ds' = true ->
    p x = false -> p x' = false ->
    ds ++ x :: t = ds' ++ x' :: t' -> ds = ds'.
Proof.
  induction ds as [|d ds IH]; intros [|d' ds'] x x' t t' H1 H2 Hx Hx' E;
    cbn [app forallb] in *.
  - reflexivity.
  - injection E as -> _. apply andb_true_iff in H2. destruct H2. congruence.
  - injection E as -> _. apply andb_true_iff in H1. destruct H1. congruence.
  - injection E as -> E. apply andb_true_iff in H1. apply andb_true_iff in H2.
    f_equal. apply (IH ds' x x' t t'); tauto.
Qed.

Lemma density_marker_unique (ds ds' s : str) :
  density_marker u ds s -> density_marker u ds' s -> ds = ds'.
Proof.
  intros (_ & H1 & x & e & t & Hx & _ & E) (_ & H2 & x' & e' & t' & Hx' & _ & E').
  rewrite E in E'. injection E' as E'.
  eapply run_prefix_unique with (x := x) (x' := x');
    [exact H1|exact H2| | |exact E']; now apply lower_x_not_decimal.
Qed.

Lemma run_iff_marker (s : str) (g : list str) (t : str) :
  In (g, t) (Regex.run u scale_pattern s) ->
  density_marker u (nth 0 g []) s.
Proof.
  intros H. apply in_run_scale_pattern in H.
  destruct H as (ds & x & e & Hne & Hds & Hx & He & -> & ->).
  cbn [nth]. repeat split; try assumption. now exists x, e, t.
Qed.

Lemma marker_runs (ds s : str) :
  density_marker u ds s ->
  exists m l, Regex.run u scale_pattern s = m :: l /\ nth 0 (fst m) [] = ds.
Proof.
  intros Hm. pose proof Hm as (Hne & Hds & x & e & t & Hx & He & E).
  assert (Hin : In ([ds; e], t) (Regex.run u scale_pattern s))
    by (apply in_run_scale_pattern; now exists ds, x, e).
  destruct (Regex.run u scale_pattern s) as [|[g t'] l] eqn:Hrun; [destruct Hin|].
  exists (g, t'), l. split; [reflexivity|]. cbn [fst].
  apply density_marker_unique with (s := s); [|exact Hm].
  apply run_iff_marker with (t := t'). rewrite Hrun. now left.
Qed.

Lemma no_marker_no_run (s : str) :
  (forall ds, ~ density_marker u ds s) -> Regex.run u scale_pattern s = [].
Proof.
  intros Hno. destruct (Regex.run u scale_pattern s) as [|[g t] l] eqn:Hrun;
    [reflexivity|].
  exfalso. apply (Hno (nth 0 g [])). apply run_iff_marker with (t := t).
  rewrite Hrun. now left.
Qed.

(** The scale parser always returns. *)
Lemma parse_design_scale_returns (filename : str) :
  exists scale, parse_design_scale u filename = Ok scale.
Proof.
  unfold parse_design_scale.
  destruct (Regex.search u scale_pattern filename) as [g|] eqn:Hs;
    [|now exists Float.one].
  apply search_some_inv in Hs. destruct Hs as (i & [g' t] & l & Hrun & <-).
  assert (Hm : density_marker u (nth 0 g' []) (skipn i filename))
    by (apply run_iff_marker with (t := t); rewrite Hrun; now left).
  destruct Hm as (Hne & Hds & _).
  destruct (py_float_digits Hne Hds) as (n & _ & Hf).
  cbn [fst]. rewrite Hf. eauto.
Qed.

End ScaleParser.

(** C5.  The scale parser returns the digits of the leftmost density marker
    of the file name as a float, and [1.0] when the name has no marker; it
    always returns.  A marker is an at sign, one or more decimal digits, the
    letter x, a dot and one of the extensions png, jpg, jpeg and bmp, letters
    in either case; the digits are not checked. *)
Theorem parse_design_scale_spec (u : Unicode.db) (filename : str) :
  (forall i ds,
      marker_at u filename i ds ->
      (forall j ds', marker_at u filename j ds' -> (i <= j)%nat) ->
      exists n, digits_value u ds 0 = Some n
                /\ parse_design_scale u filename = Ok (Float.of_Z (Z.of_N n)))
  /\ ((forall i ds, ~ marker_at u filename i ds) ->
      parse_design_scale u filename = Ok Float.one)
  /\ (exists scale, parse_design_scale u filename = Ok scale)
  /\ parse_design_scale u (lit "@0x.png") = Ok (S754_zero false)
  /\ parse_design_scale u (lit "plain.png") = Ok Float.one.
Proof.
  unfold marker_at. split; [|split; [|split; [|split]]].
  - intros i ds Hm Hleft.
    destruct (marker_runs Hm) as (m & l & Hrun & Hg).
    assert (Hs : Regex.search u scale_pattern filename = Some (fst m)).
    { apply search_first with (i := i) (l := l); [exact Hrun|].
      intros j Hj. apply no_marker_no_run. intros ds' Hm'.
      specialize (Hleft j ds' Hm'). lia. }
    unfold parse_design_scale. rewrite Hs, Hg.
    destruct Hm as (Hne & Hds & _). apply py_float_digits; assumption.
  - intros Hno. unfold parse_design_scale.
    rewrite search_none; [reflexivity|].
    intros i. apply no_marker_no_run. intros ds. apply Hno.
  - apply parse_design_scale_returns.
  - reflexivity.
  - reflexivity.
Qed.

(** ** The mapping and the loop that makes identifiers unique *)

Lemma contains_in (d : dict) (k : str) :
  contains d k = true <-> In k (keys d).
Proof.
  unfold contains, keys. rewrite existsb_exists, in_map_iff. split.
  - intros (kv & Hin & E). apply str_eqb_eq in E. now exists kv.
  - intros (kv & E & Hin). exists kv. split; [exact Hin|]. now apply str_eqb_eq.
Qed.

Lemma contains_not_in (d : dict) (k : str) :
  contains d k = false <-> ~ In k (keys d).
Proof.
  rewrite <- contains_in. destruct (contains d k); split; congruence.
Qed.

(** Setting a key that is not in the mapping appends it. *)
Lemma dict_set_fresh (d : dict) (k : str) (v : entry) :
  contains d k = false -> dict_set d k v = d ++ [(k, v)].
Proof.
  induction d as [|[k' v'] d IH]; intros H; cbn [dict_set app]; [reflexivity|].
  unfold contains in H. cbn [existsb fst] in H.
  apply orb_false_iff in H. destruct H as [Hk H].
  rewrite Hk. f_equal. apply IH. exact H.
Qed.

Lemma candidate_inj (original : str) (j k : nat) :
  candidate original j = candidate original k -> j = k.
Proof.
  destruct j as [|j], k as [|k]; cbn [candidate]; intros E.
  - reflexivity.
  - apply (f_equal (@length char)) in E. rewrite !length_app in E.
    cbn [length] in E. lia.
  - apply (f_equal (@length char)) in E. rewrite !length_app in E.
    cbn [length] in E. lia.
  - apply app_inv_head in E. injection E as E. now apply of_nat_inj.
Qed.

(** The loop returns a candidate that is not a key of the mapping. *)
Lemma dedup_spec (resources : dict) (original : str) (budget : nat) :
  forall counter identifier identifier',
    dedup budget resources original counter identifier = Ok identifier' ->
    contains resources identifier' = false
    /\ (identifier' = identifier
        \/ exists k, (counter <= k)%nat
                     /\ identifier' = original ++ [underscore] ++ Str.of_nat k).
Proof.
  induction budget as [|b IH]; intros counter identifier identifier' H;
    cbn [dedup] in H;
    destruct (contains resources identifier) eqn:Hc; try discriminate.
  - apply Ok_inj in H. subst. auto.
  - apply IH in H. destruct H as [Hfresh [->|(k & Hk & ->)]].
    + split; [exact Hfresh|]. right. now exists counter.
    + split; [exact Hfresh|]. right. exists k. split; [lia|reflexivity].
  - apply Ok_inj in H. subst. auto.
Qed.

(** The loop never uses up a budget that, with the candidates already
    tried, covers the keys of the mapping: the candidates are pairwise
    distinct, so they cannot all be keys. *)
Lemma dedup_within_budget (resources : dict) (original : str) (budget : nat) :
  forall counter tried,
    NoDup tried -> incl tried (keys resources) ->
    (length resources <= length tried + budget)%nat ->
    (forall k, (counter <= S k)%nat -> ~ In (candidate original k) tried) ->
    (0 < counter)%nat ->
    exists identifier,
      dedup budget resources original counter
            (candidate original (pred counter)) = Ok identifier.
Proof.
  induction budget as [|b IH]; intros counter tried Hnd Hincl Hlen Hnew Hpos;
    cbn [dedup];
    destruct (contains resources (candidate original (pred counter))) eqn:Hc;
    try (eexists; reflexivity).
  - exfalso. apply contains_in in Hc.
    assert (Hnd' : NoDup (candidate original (pred counter) :: tried)).
    { constructor; [|exact Hnd]. apply Hnew. lia. }
    assert (Hincl' : incl (candidate original (pred counter) :: tried)
                          (keys resources)).
    { intros x [<-|Hx]; [exact Hc|now apply Hincl]. }
    pose proof (NoDup_incl_length Hnd' Hincl') as Hle.
    unfold keys in Hle. rewrite length_map in Hle. cbn [length] in Hle. lia.
  - apply contains_in in Hc.
    destruct counter as [|c]; [lia|]. cbn [pred] in *.
    apply IH with (counter := S (S c)) (tried := candidate original c :: tried).
    + constructor; [|exact Hnd]. apply Hnew. lia.
    + intros x [<-|Hx]; [exact Hc|now apply Hincl].
    + cbn [length]. lia.
    + intros k Hk [E|Hin].
      * apply candidate_inj in E. lia.
      * apply (Hnew k); [lia|exact Hin].
    + lia.
Qed.

Lemma dedup_total (resources : dict) (original : str) :
  exists identifier,
    dedup (length resources) resources original 1 original = Ok identifier.
Proof.
  apply dedup_within_budget with (counter := 1%nat) (tried := []).
  - constructor.
  - intros x [].
  - cbn [length]. lia.
  - intros k _ [].
  - lia.
Qed.

(** ** Paths *)

Lemma relative_to_app (base rel : path) :
  relative_to (base ++ rel) base = Ok rel.
Proof.
  induction base as [|b base IH]; cbn [app relative_to]; [reflexivity|].
  now rewrite str_eqb_refl.
Qed.

Lemma split_not_nil (is_sep : char -> bool) (s : str) :
  Str.split is_sep s <> [].
Proof.
  destruct s as [|c t]; cbn [Str.split]; [discriminate|].
  destruct (is_sep c); [discriminate|].
  destruct (Str.split is_sep t); discriminate.
Qed.

Lemma split_app_sep (is_sep : char -> bool) (p : str) (c : char) (t : str) :
  forallb (fun x => negb (is_sep x)) p = true -> is_sep c = true ->
  Str.split is_sep (p ++ c :: t) = p :: Str.split is_sep t.
Proof.
  intros Hp Hc. induction p as [|x p IH]; cbn [app Str.split].
  - now rewrite Hc.
  - cbn [forallb] in Hp. apply andb_true_iff in Hp. destruct Hp as [Hx Hp].
    apply negb_true_iff in Hx. rewrite Hx, (IH Hp). reflexivity.
Qed.

Lemma split_no_sep (is_sep : char -> bool) (p : str) :
  forallb (fun x => negb (is_sep x)) p = true -> Str.split is_sep p = [p].
Proof.
  induction p as [|x p IH]; cbn [Str.split forallb]; [reflexivity|].
  intros Hp. apply andb_true_iff in Hp. destruct Hp as [Hx Hp].
  apply negb_true_iff in Hx. rewrite Hx, (IH Hp). reflexivity.
Qed.

(** Splitting a joined path gives its components back. *)
Lemma split_join (is_sep : char -> bool) (c : char) (rel : list str) :
  is_sep c = true -> rel <> [] ->
  Forall (fun p => forallb (fun x => negb (is_sep x)) p = true) rel ->
  Str.split is_sep (join [c] rel) = rel.
Proof.
  intros Hc Hne Hall. revert Hne.
  induction Hall as [|p rest Hp Hrest IH]; intros Hne; [now destruct Hne|].
  destruct rest as [|q rest]; cbn [join].
  - now apply split_no_sep.
  - cbn [app]. rewrite split_app_sep by assumption. f_equal.
    apply IH. discriminate.
Qed.

Lemma replace_id (old new : char) (s : str) :
  forallb (fun x => negb (x =? old)) s = true -> Str.replace old new s = s.
Proof.
  unfold Str.replace. induction s as [|x s IH]; cbn [map forallb];
    [reflexivity|].
  intros H. apply andb_true_iff in H. destruct H as [Hx H].
  apply negb_true_iff in Hx. rewrite Hx, (IH H). reflexivity.
Qed.

Lemma replace_app (old new : char) (s t : str) :
  Str.replace old new (s ++ t) = Str.replace old new s ++ Str.replace old new t.
Proof. unfold Str.replace. apply map_app. Qed.

Lemma is_sep_slash (fl : flavour) : is_sep fl slash = true.
Proof. destruct fl; reflexivity. Qed.

Lemma is_sep_sep (fl : flavour) : is_sep fl (sep fl) = true.
Proof. destruct fl; reflexivity. Qed.

Lemma valid_name_no_sep (fl : flavour) (nm : str) :
  valid_name fl nm = true ->
  forallb (fun x => negb (is_sep fl x)) nm = true.
Proof. unfold valid_name. intros H. apply andb_true_iff in H. tauto. Qed.

Lemma valid_name_not_nil (fl : flavour) (nm : str) :
  valid_name fl nm = true -> nm <> [].
Proof.
  unfold valid_name. intros H. apply andb_true_iff in H. destruct H as [H _].
  apply negb_true_iff in H. now apply str_eqb_neq in H.
Qed.

Lemma valid_name_no_host_sep (fl : flavour) (nm : str) :
  valid_name fl nm = true ->
  forallb (fun x => negb (x =? sep fl)) nm = true.
Proof.
  intros H. apply valid_name_no_sep in H. rewrite forallb_forall in *.
  intros x Hx. specialize (H x Hx). apply negb_true_iff in H.
  apply negb_true_iff. destruct (N.eqb_spec x (sep fl)) as [->|]; [|reflexivity].
  now rewrite is_sep_sep in H.
Qed.

(** Whatever the separator of the host, the normalized text of a relative
    path joins its components with forward slashes. *)
Lemma as_posix_join (fl : flavour) (rel : path) :
  rel <> [] -> Forall (fun nm => valid_name fl nm = true) rel ->
  as_posix fl rel = join [slash] rel.
Proof.
  intros Hne Hall. unfold as_posix, to_str.
  destruct rel as [|p rest]; [congruence|]. clear Hne.
  revert p Hall. induction rest as [|q rest IH]; intros p Hall.
  - cbn [join]. apply replace_id. apply valid_name_no_host_sep.
    now inversion Hall.
  - change (join [sep fl] (p :: q :: rest))
      with (p ++ [sep fl] ++ join [sep fl] (q :: rest)).
    change (join [slash] (p :: q :: rest))
      with (p ++ [slash] ++ join [slash] (q :: rest)).
    inversion Hall as [|? ? Hp Hrest]; subst.
    rewrite !replace_app, (IH q Hrest).
    rewrite replace_id by now apply valid_name_no_host_sep.
    f_equal. f_equal. unfold Str.replace. cbn [map]. now rewrite N.eqb_refl.
Qed.

Lemma last_filter {A : Type} (f : A -> bool) (l : list A) (d : A) :
  l <> [] -> f (last l d) = true -> last (filter f l) d = last l d.
Proof.
  induction l as [|x l IH]; intros Hne Hf; [congruence|].
  destruct l as [|y l].
  - cbn [last] in Hf. cbn [filter]. now rewrite Hf.
  - change (last (x :: y :: l) d) with (last (y :: l) d) in *.
    assert (IH' := IH ltac:(discriminate) Hf).
    cbn [filter] in *. destruct (f x); [|exact IH'].
    destruct (f y) eqn:Hy.
    + exact IH'.
    + destruct (filter f l) as [|z l'] eqn:Hfl; [|exact IH'].
      (* the last element passes the filter, so the filtered list is not empty *)
      exfalso. clear IH IH' Hne.
      assert (Hin : In (last (y :: l) d) (filter f (y :: l))).
      { apply filter_In. split; [|exact Hf].
        destruct (exists_last (l := y :: l) ltac:(discriminate)) as (l0 & a & E).
        rewrite E, last_last. apply in_or_app. right. now left. }
      cbn [filter] in Hin. rewrite Hy, Hfl in Hin. destruct Hin.
Qed.

Lemma stem_of_not_nil (nm : str) : nm <> [] -> PathLib.stem_of nm <> [].
Proof.
  intros Hne. unfold PathLib.stem_of.
  destruct (Str.rfind dot nm) as [i|]; [|exact Hne].
  destruct ((0 <? i)%nat && (i <? length nm - 1)%nat) eqn:Hc; [|exact Hne].
  apply andb_true_iff in Hc. destruct Hc as [Hi _]. apply Nat.ltb_lt in Hi.
  destruct nm as [|c nm]; [congruence|]. destruct i as [|i]; [lia|]. discriminate.
Qed.

Lemma stem_of_nil_iff (nm : str) : PathLib.stem_of nm = [] <-> nm = [].
Proof.
  split; [|intros ->; reflexivity].
  intros H. destruct nm as [|c nm]; [reflexivity|].
  exfalso. now apply (@stem_of_not_nil (c :: nm)).
Qed.

(** The name and the stem read back from the normalized text of a relative
    path are those of its last component, when that component is an
    ordinary name. *)
Lemma name_of_normalized (fl : flavour) (rel : path) :
  rel <> [] -> Forall (fun nm => valid_name fl nm = true) rel ->
  Str.startswith dot (last rel []) = false ->
  PathLib.name (PathLib.parse fl (as_posix fl rel)) = last rel [].
Proof.
  intros Hne Hall Hdot. rewrite as_posix_join by assumption.
  unfold PathLib.name, PathLib.parse.
  rewrite split_join; [|apply is_sep_slash|exact Hne|].
  - apply last_filter; [exact Hne|].
    assert (Hv : valid_name fl (last rel []) = true).
    { rewrite Forall_forall in Hall. apply Hall.
      destruct (exists_last Hne) as (l0 & a & ->).
      rewrite last_last. apply in_or_app. right. now left. }
    apply valid_name_not_nil in Hv.
    destruct (last rel []) as [|c nm]; [congruence|].
    apply negb_true_iff, orb_false_iff. split.
    + now apply str_eqb_neq.
    + apply str_eqb_neq. intros E. injection E as -> ->.
      cbn in Hdot. discriminate.
  - eapply Forall_impl; [|exact Hall]. intros nm. apply valid_name_no_sep.
Qed.

(** ** The file system *)

(** Induction on trees, with the property of every entry of a directory at
    hand. *)
Lemma node_ind_entries (P : node -> Prop) :
  (forall r d m, P (File r d m)) -> P Special ->
  (forall es, Forall (fun e => P (snd e)) es -> P (Dir es)) ->
  forall n, P n.
Proof.
  intros Hfile Hspecial Hdir. fix IH 1. intros [r d m|es|].
  - apply Hfile.
  - apply Hdir. induction es as [|[k n'] es IHes]; constructor.
    + cbn [snd]. apply IH.
    + exact IHes.
  - apply Hspecial.
Qed.

Lemma lookup_in (nm : str) (es : list (str * node)) (n : node) :
  lookup nm es = Some n -> In (nm, n) es.
Proof.
  induction es as [|[k n'] es IH]; cbn [lookup]; [discriminate|].
  destruct (Str.eqb k nm) eqn:E.
  - intros H. apply str_eqb_eq in E. left. congruence.
  - intros H. right. now apply IH.
Qed.

Lemma resolve_app (n : node) (p q : path) :
  resolve n (p ++ q) =
  match resolve n p with
  | Some n' => resolve n' q
  | None => None
  end.
Proof.
  revert n. induction p as [|c p IH]; intros n; cbn [app resolve];
    [reflexivity|].
  destruct n as [| es |]; try reflexivity.
  destruct (lookup c es); [apply IH|reflexivity].
Qed.

Lemma all_names_entry (P : str -> bool) (es : list (str * node)) (e : str * node) :
  all_names P (Dir es) = true -> In e es ->
  P (fst e) = true /\ all_names P (snd e) = true.
Proof.
  cbn [all_names]. rewrite forallb_forall. intros H Hin.
  apply andb_true_iff. now apply H.
Qed.

Lemma resolve_all_names (P : str -> bool) (p : path) :
  forall n n', all_names P n = true -> resolve n p = Some n' ->
               all_names P n' = true.
Proof.
  induction p as [|c p IH]; intros n n' Hwf H; cbn [resolve] in H.
  - congruence.
  - destruct n as [| es |]; try discriminate.
    destruct (lookup c es) as [n1|] eqn:El; [|discriminate].
    apply lookup_in in El.
    apply (IH n1 n'); [|exact H].
    apply (all_names_entry P es (c, n1) Hwf El).
Qed.

(** Every path of the walk lies strictly below the directory walked, along
    names of the tree. *)
Lemma rglob_from_below (P : str -> bool) (n : node) :
  forall at_ p,
    all_names P n = true -> In p (rglob_from at_ n) ->
    exists rel, p = at_ ++ rel /\ rel <> []
                /\ Forall (fun nm => P nm = true) rel.
Proof.
  induction n as [r d m| |es IH] using node_ind_entries;
    intros at_ p Hwf Hin; cbn [rglob_from] in Hin; try destruct Hin.
  apply in_app_or in Hin. destruct Hin as [Hin|Hin].
  - apply in_map_iff in Hin. destruct Hin as (e & <- & He).
    destruct (all_names_entry P es e Hwf He) as [Hv _].
    exists [fst e]. split; [reflexivity|]. split; [discriminate|].
    now constructor.
  - apply in_flat_map in Hin. destruct Hin as (e & He & Hin).
    destruct (all_names_entry P es e Hwf He) as [Hv Hwf'].
    rewrite Forall_forall in IH.
    destruct (IH e He (at_ ++ [fst e]) p Hwf' Hin) as (rel & -> & _ & Hall).
    exists (fst e :: rel). split; [now rewrite <- app_assoc|].
    split; [discriminate|]. now constructor.
Qed.

(** Every entry below the directory walked is met by the walk, whatever
    the names of the directories on the way. *)
Lemma rglob_from_complete (rel : path) :
  forall n at_ x,
    rel <> [] -> resolve n rel = Some x -> In (at_ ++ rel) (rglob_from at_ n).
Proof.
  induction rel as [|c rel IH]; intros n at_ x Hne H; [congruence|].
  cbn [resolve] in H. destruct n as [| es |]; try discriminate.
  destruct (lookup c es) as [n1|] eqn:El; [|discriminate].
  apply lookup_in in El. cbn [rglob_from]. apply in_or_app.
  destruct rel as [|c' rel].
  - left. apply in_map_iff. now exists (c, n1).
  - right. apply in_flat_map. exists (c, n1). split; [exact El|].
    cbn [fst snd].
    change (at_ ++ c :: c' :: rel) with (at_ ++ [c] ++ c' :: rel).
    rewrite app_assoc. apply (IH n1 (at_ ++ [c]) x); [discriminate|exact H].
Qed.

(** ** The sanitizer *)

Lemma encode_char_none (c : char) :
  Utf8.encode_char c = None <-> Utf8.is_surrogate c = true.
Proof.
  unfold Utf8.encode_char, Utf8.is_surrogate.
  destruct (N.ltb_spec c 128) as [L1|L1];
    [|destruct (N.ltb_spec c 2048) as [L2|L2];
      [|destruct (N.ltb_spec c 65536) as [L3|L3]]].
  - split; [discriminate|]. intros Hs. apply andb_true_iff in Hs.
    destruct Hs as [Hs _]. apply N.leb_le in Hs. lia.
  - split; [discriminate|]. intros Hs. apply andb_true_iff in Hs.
    destruct Hs as [Hs _]. apply N.leb_le in Hs. lia.
  - destruct ((55296 <=? c) && (c <=? 57343)); split; congruence.
  - split; [discriminate|]. intros Hs. apply andb_true_iff in Hs.
    destruct Hs as [_ Hs]. apply N.leb_le in Hs. lia.
Qed.

Lemma encode_ok (s : str) :
  forallb (fun c => negb (Utf8.is_surrogate c)) s = true ->
  exists data, Utf8.encode s = Ok data.
Proof.
  induction s as [|c s IH]; cbn [Utf8.encode forallb]; [now exists []|].
  intros H. apply andb_true_iff in H. destruct H as [Hc H].
  destruct (Utf8.encode_char c) as [bs|] eqn:E.
  - destruct (IH H) as (data & ->). cbn [bind]. eauto.
  - apply encode_char_none in E. rewrite E in Hc. discriminate.
Qed.

Lemma encode_raise (s : str) (e : exn) :
  Utf8.encode s = Raise e ->
  e = UnicodeEncodeError /\ existsb Utf8.is_surrogate s = true.
Proof.
  induction s as [|c s IH]; cbn [Utf8.encode existsb]; [discriminate|].
  destruct (Utf8.encode_char c) as [bs|] eqn:E.
  - destruct (Utf8.encode s) as [data|e'] eqn:Es; cbn [bind]; [discriminate|].
    intros H. injection H as ->. destruct (IH eq_refl) as [-> Hs].
    split; [reflexivity|]. rewrite Hs. apply orb_true_r.
  - intros H. injection H as <-. apply encode_char_none in E.
    now rewrite E.
Qed.

(** The result of the sanitizer, by cases on the encoding of the name and
    on its stem. *)
Lemma sanitize_identifier_cases (fl : flavour) (u : Unicode.db) (name : str) :
  sanitize_identifier fl u name =
  match Utf8.encode name with
  | Raise e => Raise e
  | Ok data =>
      match map (sanitize_char u) (PathLib.stem (PathLib.parse fl name)) with
      | [] => Raise IndexError
      | c0 :: rest =>
          Ok ((if negb (Unicode.isalpha u c0) then lit "res_" ++ c0 :: rest
               else c0 :: rest)
              ++ [underscore] ++ firstn 8 (MD5.hexdigest data))
      end
  end.
Proof.
  unfold sanitize_identifier.
  destruct (Utf8.encode name) as [data|e]; cbn [bind]; [|reflexivity].
  destruct (map (sanitize_char u) (PathLib.stem (PathLib.parse fl name)));
    reflexivity.
Qed.

(** A name whose stem is empty is made of separators and dots only. *)
Lemma split_trivial_chars (is_sep : char -> bool) (s : str) :
  Forall (fun p => p = [] \/ p = [dot]) (Str.split is_sep s) ->
  Forall (fun c => is_sep c = true \/ c = dot) s.
Proof.
  induction s as [|c s IH]; cbn [Str.split]; [constructor|].
  destruct (is_sep c) eqn:Ec.
  - intros H. apply Forall_cons_iff in H. destruct H as [_ H].
    constructor; auto.
  - destruct (Str.split is_sep s) as [|p ps] eqn:Es.
    + now apply split_not_nil in Es.
    + intros H. apply Forall_cons_iff in H. destruct H as [[Hp|Hp] Hps];
        [discriminate|].
      injection Hp as -> ->. constructor; [now right|].
      apply IH. constructor; [now left|exact Hps].
Qed.

Lemma filter_nil_forall {A : Type} (f : A -> bool) (l : list A) :
  filter f l = [] -> Forall (fun x => f x = false) l.
Proof.
  induction l as [|x l IH]; cbn [filter]; [constructor|].
  destruct (f x) eqn:E; [discriminate|]. intros H. constructor; auto.
Qed.

Lemma last_in {A : Type} (l : list A) (d : A) : l <> [] -> In (last l d) l.
Proof.
  intros Hne. destruct (exists_last Hne) as (l0 & a & ->).
  rewrite last_last. apply in_or_app. right. now left.
Qed.

Lemma empty_stem_chars (fl : flavour) (name : str) :
  PathLib.stem (PathLib.parse fl name) = [] ->
  Forall (fun c => is_sep fl c = true \/ c = dot) name.
Proof.
  unfold PathLib.stem. rewrite stem_of_nil_iff. unfold PathLib.name, PathLib.parse.
  intros H. apply split_trivial_chars.
  set (ok := fun p : str => negb (Str.eqb p [] || Str.eqb p [dot])) in *.
  destruct (filter ok (Str.split (is_sep fl) name)) as [|x l] eqn:Ef.
  - apply filter_nil_forall in Ef. eapply Forall_impl; [|exact Ef].
    intros p Hp. unfold ok in Hp. apply negb_false_iff, orb_true_iff in Hp.
    destruct Hp as [Hp|Hp]; apply str_eqb_eq in Hp; auto.
  - exfalso.
    assert (Hin : In (last (x :: l) []) (x :: l))
      by (apply last_in; discriminate).
    rewrite <- Ef in Hin. apply filter_In in Hin. destruct Hin as [_ Hok].
    rewrite Ef, H in Hok. discriminate.
Qed.

Lemma empty_stem_encodes (fl : flavour) (name : str) :
  PathLib.stem (PathLib.parse fl name) = [] ->
  exists data, Utf8.encode name = Ok data.
Proof.
  intros H. apply encode_ok. apply empty_stem_chars in H.
  rewrite forallb_forall. rewrite Forall_forall in H.
  intros c Hc. destruct (H c Hc) as [Hs| ->]; [|reflexivity].
  unfold is_sep in Hs. apply orb_true_iff in Hs. destruct Hs as [Hs|Hs].
  - apply N.eqb_eq in Hs. now subst.
  - destruct fl; [discriminate|]. apply N.eqb_eq in Hs. now subst.
Qed.

Lemma sanitize_empty_stem (fl : flavour) (u : Unicode.db) (name : str) :
  PathLib.stem (PathLib.parse fl name) = [] ->
  sanitize_identifier fl u name = Raise IndexError.
Proof.
  intros H. rewrite sanitize_identifier_cases.
  destruct (empty_stem_encodes fl name H) as (data & ->). now rewrite H.
Qed.

Lemma sanitize_nonempty_stem (fl : flavour) (u : Unicode.db) (name : str) :
  PathLib.stem (PathLib.parse fl name) <> [] ->
  (exists identifier, sanitize_identifier fl u name = Ok identifier)
  \/ (sanitize_identifier fl u name = Raise UnicodeEncodeError
      /\ existsb Utf8.is_surrogate name = true).
Proof.
  intros H. rewrite sanitize_identifier_cases.
  destruct (Utf8.encode name) as [data|e] eqn:E.
  - left. destruct (PathLib.stem (PathLib.parse fl name)) as [|c rest];
      [congruence|]. cbn [map]. eauto.
  - right. apply encode_raise in E. destruct E as [-> Hs]. auto.
Qed.

(** ** The collector *)

Lemma NoDup_snoc {A : Type} (l : list A) (x : A) :
  NoDup l -> ~ In x l -> NoDup (l ++ [x]).
Proof.
  induction 1 as [|y l Hy Hnd IH]; intros Hx; cbn [app].
  - constructor; [intros []|constructor].
  - constructor.
    + intros Hin. apply in_app_or in Hin. destruct Hin as [Hin|[->|[]]].
      * contradiction.
      * apply Hx. now left.
    + apply IH. intros Hin. apply Hx. now right.
Qed.

Lemma relative_to_inv (base : path) :
  forall p rel, relative_to p base = Ok rel -> p = base ++ rel.
Proof.
  induction base as [|b base IH]; intros p rel; cbn [relative_to app].
  - intros H. apply Ok_inj in H. now subst.
  - destruct p as [|c p]; [discriminate|].
    destruct (Str.eqb c b) eqn:E; [|discriminate].
    intros H. apply str_eqb_eq in E. subst. f_equal. now apply IH.
Qed.

Lemma last_app_right {A : Type} (l r : list A) (d : A) :
  r <> [] -> last (l ++ r) d = last r d.
Proof.
  intros Hr. induction l as [|x l IH]; [reflexivity|].
  cbn [app]. destruct (l ++ r) eqn:E; [|exact IH].
  destruct l; cbn [app] in E; congruence.
Qed.

Section Collector.

Variable fl : flavour.
Variable u : Unicode.db.
Variable fs : node.
Variable input_dir : path.

(** What one turn of the loop does to the mapping. *)
Lemma collect_file_ok (resources resources' : dict) (file_path : path) :
  collect_file fl u fs input_dir resources file_path = Ok resources' ->
  (eligible fs file_path = false /\ resources' = resources)
  \/ (eligible fs file_path = true
      /\ exists identifier v,
           contains resources identifier = false
           /\ resources' = resources ++ [(identifier, v)]
           /\ fst (fst v) = file_path
           /\ collected fl u input_dir (identifier, v)).
Proof.
  unfold collect_file. destruct (eligible fs file_path); intros H.
  - right. split; [reflexivity|].
    destruct (relative_to file_path input_dir) as [rel|e] eqn:Hrel;
      cbn [bind] in H; [|discriminate].
    destruct (sanitize_identifier fl u (as_posix fl rel)) as [base|e] eqn:Hbase;
      cbn [bind] in H; [|discriminate].
    destruct (parse_design_scale u (PathLib.name file_path)) as [scale|e] eqn:Hscale;
      cbn [bind] in H; [|discriminate].
    destruct (dedup (length resources) resources base 1 base) as [identifier|e]
      eqn:Hdedup; cbn [bind] in H; [|discriminate].
    apply Ok_inj in H. apply dedup_spec in Hdedup.
    destruct Hdedup as [Hfresh Hform].
    exists identifier, (file_path, as_posix fl rel, scale).
    split; [exact Hfresh|]. split; [now rewrite dict_set_fresh in H|].
    split; [reflexivity|].
    apply relative_to_inv in Hrel.
    destruct Hform as [->|(k & Hk & ->)].
    + now exists rel, base, O.
    + exists rel, base, k. repeat split; try assumption.
      destruct k; [lia|reflexivity].
  - left. apply Ok_inj in H. auto.
Qed.

(** The loop appends, for the eligible files in the order met, one entry
    each, under keys that stay pairwise distinct. *)
Lemma collect_loop_ok (files : list path) :
  forall resources resources',
    collect_loop fl u fs input_dir files resources = Ok resources' ->
    exists added,
      resources' = resources ++ added
      /\ map (fun kv => fst (fst (snd kv))) added = filter (eligible fs) files
      /\ Forall (collected fl u input_dir) added
      /\ (NoDup (keys resources) -> NoDup (keys resources')).
Proof.
  induction files as [|file_path files IH]; intros resources resources' H;
    cbn [collect_loop] in H.
  - apply Ok_inj in H. subst. exists []. rewrite app_nil_r. repeat split; auto.
  - destruct (collect_file fl u fs input_dir resources file_path)
      as [resources1|e] eqn:Hfile; cbn [bind] in H; [|discriminate].
    apply IH in H. destruct H as (added & -> & Hpaths & Hall & Hnd).
    apply collect_file_ok in Hfile.
    destruct Hfile as [[Hel ->]|(Hel & identifier & v & Hfresh & -> & Hv & Hc)].
    + exists added. cbn [filter]. rewrite Hel. repeat split; auto.
    + exists ((identifier, v) :: added). rewrite <- app_assoc.
      cbn [filter map snd app]. rewrite Hel, Hv, Hpaths.
      split; [reflexivity|]. split; [reflexivity|]. split; [now constructor|].
      intros Hnd0. rewrite <- app_assoc in Hnd. apply Hnd.
      unfold keys. rewrite map_app. apply NoDup_snoc; [exact Hnd0|].
      now apply contains_not_in.
Qed.

(** One turn of the loop returns, or stops on the encoding of the name,
    when the file has a name of its own below the input directory. *)
Lemma collect_file_total (resources : dict) (file_path : path) :
  (eligible fs file_path = true ->
   exists rel, file_path = input_dir ++ rel
               /\ PathLib.stem (PathLib.parse fl (as_posix fl rel)) <> []) ->
  (exists resources',
      collect_file fl u fs input_dir resources file_path = Ok resources')
  \/ (collect_file fl u fs input_dir resources file_path
      = Raise UnicodeEncodeError
      /\ exists rel, file_path = input_dir ++ rel
                     /\ existsb Utf8.is_surrogate (as_posix fl rel) = true).
Proof.
  unfold collect_file. destruct (eligible fs file_path); [|eauto].
  intros H. destruct (H eq_refl) as (rel & -> & Hstem).
  rewrite relative_to_app. cbn [bind].
  destruct (sanitize_nonempty_stem fl u _ Hstem) as [(base & ->)|[-> Hs]];
    cbn [bind]; [|right; eauto].
  destruct (parse_design_scale_returns u (PathLib.name (input_dir ++ rel)))
    as (scale & ->).
  cbn [bind]. destruct (dedup_total resources base) as (identifier & ->).
  cbn [bind]. eauto.
Qed.

Lemma collect_loop_total (files : list path) :
  Forall (fun file_path =>
            eligible fs file_path = true ->
            exists rel, file_path = input_dir ++ rel
                        /\ PathLib.stem (PathLib.parse fl (as_posix fl rel)) <> [])
         files ->
  forall resources,
    (exists resources',
        collect_loop fl u fs input_dir files resources = Ok resources')
    \/ (collect_loop fl u fs input_dir files resources
        = Raise UnicodeEncodeError
        /\ exists rel, In (input_dir ++ rel) files
                       /\ existsb Utf8.is_surrogate (as_posix fl rel) = true).
Proof.
  induction 1 as [|file_path files Hfile Hfiles IH]; intros resources;
    cbn [collect_loop]; [eauto|].
  destruct (collect_file_total resources Hfile)
    as [(resources1 & ->)|(-> & rel & -> & Hs)]; cbn [bind].
  - destruct (IH resources1) as [Hok|(Hraise & rel & Hin & Hs)]; [now left|].
    right. split; [exact Hraise|]. exists rel. split; [now right|exact Hs].
  - right. split; [reflexivity|]. exists rel. split; [now left|exact Hs].
Qed.

(** The files of the walk have names of their own: the sanitizer finds a
    stem in each eligible one. *)
Lemma rglob_stems (n : node) :
  resolve fs input_dir = Some n -> wf_names fl fs = true ->
  Forall (fun file_path =>
            eligible fs file_path = true ->
            exists rel, file_path = input_dir ++ rel
                        /\ PathLib.stem (PathLib.parse fl (as_posix fl rel)) <> [])
         (rglob_from input_dir n).
Proof.
  intros Hres Hwf. apply Forall_forall. intros file_path Hin Hel.
  assert (Hwfn : all_names (valid_name fl) n = true)
    by (eapply resolve_all_names; [exact Hwf|exact Hres]).
  destruct (rglob_from_below _ _ _ _ Hwfn Hin)
    as (rel & -> & Hne & Hall).
  exists rel. split; [reflexivity|].
  unfold eligible in Hel. apply andb_true_iff in Hel. destruct Hel as [_ Hdot].
  apply negb_true_iff in Hdot. unfold PathLib.name in Hdot.
  rewrite last_app_right in Hdot by exact Hne.
  unfold PathLib.stem. rewrite name_of_normalized by assumption.
  apply stem_of_not_nil. apply (valid_name_not_nil fl).
  rewrite Forall_forall in Hall. apply Hall. now apply last_in.
Qed.

End Collector.

Lemma collect_resources_ok (fl : flavour) (u : Unicode.db) (fs : node)
  (input_dir : path) (resources : dict) :
  collect_resources fl u fs input_dir = Ok resources ->
  NoDup (keys resources)
  /\ map (fun kv => fst (fst (snd kv))) resources
     = filter (eligible fs) (rglob fs input_dir)
  /\ Forall (collected fl u input_dir) resources.
Proof.
  unfold collect_resources, exists_, rglob.
  destruct (resolve fs input_dir) as [n|]; cbn [negb]; intros H.
  - apply collect_loop_ok in H. destruct H as (added & -> & Hpaths & Hall & Hnd).
    cbn [app] in *. split; [apply Hnd; constructor|]. split; assumption.
  - apply Ok_inj in H. subst. split; [constructor|]. split; [reflexivity|constructor].
Qed.

(** The collector returns a mapping, or stops on a name that the strict
    UTF-8 codec refuses; no other exception leaves it. *)
Lemma collect_resources_total (fl : flavour) (u : Unicode.db) (fs : node)
  (input_dir : path) :
  wf_names fl fs = true ->
  (exists resources, collect_resources fl u fs input_dir = Ok resources)
  \/ (collect_resources fl u fs input_dir = Raise UnicodeEncodeError
      /\ exists rel, In (input_dir ++ rel) (rglob fs input_dir)
                     /\ existsb Utf8.is_surrogate (as_posix fl rel) = true).
Proof.
  intros Hwf. unfold collect_resources, exists_, rglob.
  destruct (resolve fs input_dir) as [n|] eqn:Hres; cbn [negb]; [|eauto].
  apply collect_loop_total. now apply rglob_stems.
Qed.

Lemma existsb_forallb_negb {A : Type} (f : A -> bool) (l : list A) :
  existsb f l = true -> forallb (fun x => negb (f x)) l = true -> False.
Proof.
  induction l as [|x l IH]; cbn [existsb forallb]; [discriminate|].
  intros He Hf. apply andb_true_iff in Hf. destruct Hf as [Hx Hf].
  apply orb_true_iff in He. destruct He as [He|He]; [|auto].
  rewrite He in Hx. discriminate.
Qed.

Lemma replace_surrogate (old : char) (s : str) :
  existsb Utf8.is_surrogate (Str.replace old slash s) = true ->
  existsb Utf8.is_surrogate s = true.
Proof.
  unfold Str.replace. induction s as [|c s IH]; cbn [map existsb]; [auto|].
  intros H. apply orb_true_iff in H. apply orb_true_iff.
  destruct H as [H|H]; [|right; auto].
  destruct (c =? old); [discriminate|now left].
Qed.

Lemma join_surrogate (c : char) (rel : list str) :
  Utf8.is_surrogate c = false ->
  existsb Utf8.is_surrogate (join [c] rel) = true ->
  exists nm, In nm rel /\ existsb Utf8.is_surrogate nm = true.
Proof.
  intros Hc. induction rel as [|p rest IH]; [discriminate|].
  destruct rest as [|q rest].
  - cbn [join]. intros H. exists p. split; [now left|exact H].
  - change (join [c] (p :: q :: rest)) with (p ++ [c] ++ join [c] (q :: rest)).
    rewrite !existsb_app. cbn [existsb]. rewrite Hc. cbn [orb].
    intros H. apply orb_true_iff in H. destruct H as [H|H].
    + exists p. split; [now left|exact H].
    + destruct (IH H) as (nm & Hin & Hs). exists nm. split; [now right|exact Hs].
Qed.

(** When, besides, no name of the tree holds a lone surrogate, the
    collector returns a mapping. *)
Lemma collect_resources_returns (fl : flavour) (u : Unicode.db) (fs : node)
  (input_dir : path) :
  wf_names fl fs = true -> all_names encodable fs = true ->
  exists resources, collect_resources fl u fs input_dir = Ok resources.
Proof.
  intros Hwf Henc.
  destruct (collect_resources_total fl u fs input_dir Hwf)
    as [Hok|(_ & rel & Hin & Hs)]; [exact Hok|exfalso].
  unfold rglob in Hin.
  destruct (resolve fs input_dir) as [n|] eqn:Hres; [|destruct Hin].
  assert (Hn : all_names encodable n = true)
    by (eapply resolve_all_names; [exact Henc|exact Hres]).
  destruct (rglob_from_below _ _ _ _ Hn Hin) as (rel' & E & Hne & Hall).
  apply app_inv_head in E. subst rel'.
  unfold as_posix, to_str in Hs. apply replace_surrogate in Hs.
  destruct rel as [|p rest]; [congruence|].
  apply join_surrogate in Hs; [|destruct fl; reflexivity].
  destruct Hs as (nm & Hnm & Hs). rewrite Forall_forall in Hall.
  apply (existsb_forallb_negb _ _ Hs). apply (Hall nm Hnm).
Qed.

Lemma relative_to_raise (base : path) :
  forall p e, relative_to p base = Raise e -> e = ValueError.
Proof.
  induction base as [|b base IH]; intros p e; cbn [relative_to]; [discriminate|].
  destruct p as [|c p]; [congruence|].
  destruct (Str.eqb c b); [apply IH|congruence].
Qed.

Lemma sanitize_raise (fl : flavour) (u : Unicode.db) (name : str) (e : exn) :
  sanitize_identifier fl u name = Raise e ->
  e = UnicodeEncodeError \/ e = IndexError.
Proof.
  rewrite sanitize_identifier_cases.
  destruct (Utf8.encode name) as [data|e'] eqn:E.
  - destruct (map (sanitize_char u) (PathLib.stem (PathLib.parse fl name)));
      [|discriminate]. intros H. right. congruence.
  - intros H. left. apply encode_raise in E. destruct E. congruence.
Qed.

(** The loop that makes identifiers unique never runs out of its budget,
    whatever the tree. *)
Lemma collect_loop_budget (fl : flavour) (u : Unicode.db) (fs : node)
  (input_dir : path) (files : list path) :
  forall resources,
    collect_loop fl u fs input_dir files resources <> Raise LoopBudget.
Proof.
  induction files as [|file_path files IH]; intros resources;
    cbn [collect_loop]; [discriminate|].
  destruct (collect_file fl u fs input_dir resources file_path)
    as [resources1|e] eqn:Hfile; cbn [bind]; [apply IH|].
  intros H. injection H as ->. revert Hfile. unfold collect_file.
  destruct (eligible fs file_path); [|discriminate].
  destruct (relative_to file_path input_dir) as [rel|e] eqn:Hrel; cbn [bind].
  2:{ intros H. injection H as ->. apply relative_to_raise in Hrel. discriminate. }
  destruct (sanitize_identifier fl u (as_posix fl rel)) as [base|e] eqn:Hbase;
    cbn [bind].
  2:{ intros H. injection H as ->. apply sanitize_raise in Hbase.
      destruct Hbase; discriminate. }
  destruct (parse_design_scale_returns u (PathLib.name file_path))
    as (scale & ->). cbn [bind].
  destruct (dedup_total resources base) as (identifier & ->). discriminate.
Qed.

(** C3.  In the mapping of a collection run the identifiers are pairwise
    distinct; there is one entry for each eligible file of the walk, in its
    order; each identifier is the sanitized identifier of its file or that
    identifier with a suffix [_k], k >= 1; so the entries of two files, also
    of two files with the same sanitized identifier, carry different
    identifiers.  The loop that looks for a free identifier always ends,
    and on a tree of ordinary names without lone surrogates the run returns
    a mapping. *)
Theorem collected_identifiers_are_unique
  (fl : flavour) (u : Unicode.db) (fs : node) (input_dir : path) :
  (forall resources,
      collect_resources fl u fs input_dir = Ok resources ->
      NoDup (keys resources)
      /\ map (fun kv => fst (fst (snd kv))) resources
         = filter (eligible fs) (rglob fs input_dir)
      /\ Forall (fun kv =>
                   exists base k,
                     sanitize_identifier fl u (snd (fst (snd kv))) = Ok base
                     /\ fst kv = candidate base k)
                resources
      /\ forall i j kv1 kv2,
           i <> j ->
           nth_error resources i = Some kv1 ->
           nth_error resources j = Some kv2 ->
           fst kv1 <> fst kv2)
  /\ collect_resources fl u fs input_dir <> Raise LoopBudget
  /\ (wf_names fl fs = true -> all_names encodable fs = true ->
      exists resources, collect_resources fl u fs input_dir = Ok resources).
Proof.
  split; [|split; [|apply collect_resources_returns]].
  - intros resources H. apply collect_resources_ok in H.
    destruct H as (Hnd & Hpaths & Hall). split; [exact Hnd|].
    split; [exact Hpaths|]. split.
    + eapply Forall_impl; [|exact Hall].
      intros [identifier [[file_path normalized_path] design_scale]]
             (rel & base & k & _ & _ & Hbase & _ & ->).
      now exists base, k.
    + intros i j kv1 kv2 Hij H1 H2 E. apply Hij.
      assert (Hi : (i < length (keys resources))%nat)
        by (unfold keys; rewrite length_map; apply nth_error_Some; congruence).
      apply (proj1 (NoDup_nth_error (keys resources)) Hnd i j Hi).
      unfold keys. rewrite !nth_error_map, H1, H2. cbn. now rewrite E.
  - unfold collect_resources.
    destruct (negb (exists_ fs input_dir)); [discriminate|].
    apply collect_loop_budget.
Qed.

(** C6.  When the input directory does not exist, the collector returns the
    empty mapping and raises nothing. *)
Theorem missing_input_directory_gives_empty_mapping
  (fl : flavour) (u : Unicode.db) (fs : node) (input_dir : path) :
  exists_ fs input_dir = false ->
  collect_resources fl u fs input_dir = Ok [].
Proof.
  intros H. unfold collect_resources. now rewrite H.
Qed.

Lemma in_collected_walk (fl : flavour) (u : Unicode.db) (fs : node)
  (input_dir : path) (resources : dict) (kv : str * entry) :
  collect_resources fl u fs input_dir = Ok resources ->
  In kv resources ->
  In (fst (fst (snd kv))) (rglob fs input_dir)
  /\ eligible fs (fst (fst (snd kv))) = true
  /\ collected fl u input_dir kv.
Proof.
  intros H Hin. apply collect_resources_ok in H.
  destruct H as (_ & Hpaths & Hall).
  assert (Hp : In (fst (fst (snd kv))) (filter (eligible fs) (rglob fs input_dir))).
  { rewrite <- Hpaths. apply in_map_iff. now exists kv. }
  apply filter_In in Hp. destruct Hp as [Hw He].
  split; [exact Hw|]. split; [exact He|].
  rewrite Forall_forall in Hall. now apply Hall.
Qed.

(** C7.  The path recorded for a collected file is its path below the input
    directory with its components joined by forward slashes, on a host that
    separates with slashes as on one that separates with backslashes; the
    scale recorded is the one parsed from the last component. *)
Theorem relative_path_is_slash_joined
  (fl : flavour) (u : Unicode.db) (fs : node) (input_dir : path)
  (resources : dict) :
  wf_names fl fs = true ->
  collect_resources fl u fs input_dir = Ok resources ->
  forall identifier file_path normalized_path design_scale,
    In (identifier, (file_path, normalized_path, design_scale)) resources ->
    exists rel,
      file_path = input_dir ++ rel
      /\ rel <> []
      /\ normalized_path = join [slash] rel
      /\ parse_design_scale u (last rel []) = Ok design_scale.
Proof.
  intros Hwf H identifier file_path normalized_path design_scale Hin.
  destruct (in_collected_walk fl u fs input_dir _ H Hin) as (Hw & _ & Hc).
  cbn [fst snd] in Hw.
  destruct Hc as (rel & base & k & -> & -> & _ & Hscale & _).
  unfold rglob in Hw.
  destruct (resolve fs input_dir) as [n|] eqn:Hres; [|destruct Hw].
  assert (Hn : all_names (valid_name fl) n = true)
    by (eapply resolve_all_names; [exact Hwf|exact Hres]).
  destruct (rglob_from_below _ _ _ _ Hn Hw) as (rel' & E & Hne & Hall).
  apply app_inv_head in E. subst rel'.
  exists rel. split; [reflexivity|]. split; [exact Hne|].
  split; [now apply as_posix_join|].
  unfold PathLib.name in Hscale. now rewrite last_app_right in Hscale.
Qed.

(** C10.  A regular file below the input directory whose own name does not
    start with a dot is in the mapping, with its relative path; nothing is
    asked of the names of the directories above it, hidden or not. *)
Theorem files_under_hidden_directories_are_collected
  (fl : flavour) (u : Unicode.db) (fs : node) (input_dir : path)
  (resources : dict) (rel : path) (r : bool) (data : list byte) (mtime : float) :
  collect_resources fl u fs input_dir = Ok resources ->
  resolve fs (input_dir ++ rel) = Some (File r data mtime) ->
  rel <> [] ->
  Str.startswith dot (last rel []) = false ->
  exists identifier design_scale,
    In (identifier, (input_dir ++ rel, as_posix fl rel, design_scale)) resources.
Proof.
  intros H Hfile Hne Hdot.
  assert (Hel : eligible fs (input_dir ++ rel) = true).
  { unfold eligible, is_file, PathLib.name. rewrite Hfile.
    rewrite last_app_right by exact Hne. now rewrite Hdot. }
  assert (Hw : In (input_dir ++ rel) (rglob fs input_dir)).
  { unfold rglob. rewrite resolve_app in Hfile.
    destruct (resolve fs input_dir) as [n|]; [|discriminate].
    eapply rglob_from_complete; [exact Hne|exact Hfile]. }
  pose proof (collect_resources_ok _ _ _ _ H) as (_ & Hpaths & Hall).
  assert (Hp : In (input_dir ++ rel)
                  (filter (eligible fs) (rglob fs input_dir)))
    by (apply filter_In; now split).
  rewrite <- Hpaths in Hp. apply in_map_iff in Hp.
  destruct Hp as ([identifier [[file_path normalized_path] design_scale]] & E & Hin).
  cbn [fst snd] in E. subst file_path.
  rewrite Forall_forall in Hall.
  destruct (Hall _ Hin) as (rel' & base & k & E & -> & _).
  apply app_inv_head in E. subst rel'.
  now exists identifier, design_scale.
Qed.

Lemma encode_surrogate (s : str) :
  existsb Utf8.is_surrogate s = true -> Utf8.encode s = Raise UnicodeEncodeError.
Proof.
  intros H. destruct (Utf8.encode s) as [data|e] eqn:E.
  - exfalso. revert data E. induction s as [|c s IH]; [discriminate|].
    cbn [existsb Utf8.encode] in *. intros data.
    destruct (Utf8.encode_char c) as [bs|] eqn:Ec; [|discriminate].
    apply orb_true_iff in H. destruct H as [H|H].
    + apply encode_char_none in H. congruence.
    + destruct (Utf8.encode s) as [rest|e]; [|discriminate].
      exfalso. apply (IH H rest eq_refl).
  - apply encode_raise in E. destruct E as [-> _]. reflexivity.
Qed.

(** The names on which the Windows flavour of [pathlib] splits off a drive
    or a share are set apart; the paths the collector passes are not among
    them. *)
Lemma anchor_free_samples :
  anchor_free Windows (lit "C:") = false
  /\ anchor_free Windows (lit "c:a.png") = false
  /\ anchor_free Windows (lit "//server/share") = false
  /\ anchor_free Windows (lit "assets/icons/a@2x.png") = true
  /\ anchor_free Posix (lit "C:") = true.
Proof. repeat split. Qed.

(** C9 (amended).  Take a name in which [pathlib] finds no drive and no
    share (any name on a POSIX host).  The sanitizer returns an identifier
    if the stem of the name is not empty and the name holds no lone
    surrogate; it raises [IndexError] exactly when the stem is empty, and
    [UnicodeEncodeError] when the name holds a lone surrogate; and the
    collector, on a tree of ordinary names (not empty, without separator
    and, on a Windows host, without colon in second place), never meets
    that [IndexError]. *)
Theorem sanitizer_domain (fl : flavour) (u : Unicode.db) (name : str) :
  anchor_free fl name = true ->
  (PathLib.stem (PathLib.parse fl name) <> [] -> encodable name = true ->
   exists identifier, sanitize_identifier fl u name = Ok identifier)
  /\ (PathLib.stem (PathLib.parse fl name) = [] ->
      sanitize_identifier fl u name = Raise IndexError)
  /\ (sanitize_identifier fl u name = Raise IndexError ->
      PathLib.stem (PathLib.parse fl name) = [])
  /\ (existsb Utf8.is_surrogate name = true ->
      sanitize_identifier fl u name = Raise UnicodeEncodeError)
  /\ (forall fs input_dir,
         wf_names fl fs = true ->
         all_names (anchor_free fl) fs = true ->
         collect_resources fl u fs input_dir <> Raise IndexError).
Proof.
  intros _.
  split; [|split; [|split; [|split]]].
  - intros Hstem Henc.
    destruct (sanitize_nonempty_stem fl u name Hstem) as [Hok|[_ Hs]];
      [exact Hok|].
    exfalso. apply (existsb_forallb_negb _ _ Hs Henc).
  - apply sanitize_empty_stem.
  - intros H.
    destruct (PathLib.stem (PathLib.parse fl name)) as [|c rest] eqn:Hstem;
      [reflexivity|exfalso].
    assert (Hne : PathLib.stem (PathLib.parse fl name) <> [])
      by (rewrite Hstem; discriminate).
    destruct (sanitize_nonempty_stem fl u name Hne) as [(i & Hi)|[Hr _]];
      congruence.
  - intros Hs. rewrite sanitize_identifier_cases.
    now rewrite (encode_surrogate name Hs).
  - intros fs input_dir Hwf _ H.
    destruct (collect_resources_total fl u fs input_dir Hwf)
      as [(resources & Hok)|[Hr _]]; congruence.
Qed.

(** ** The identifier grammar *)

Lemma hexdigest_chars (bs : list byte) :
  forallb Hex.is_hexdigit (flat_map Hex.of_byte bs) = true.
Proof.
  induction bs as [|b bs IH]; [reflexivity|].
  cbn [flat_map]. rewrite forallb_app, IH, andb_true_r.
  pose proof (byte_to_N_bound b) as Hb. unfold Hex.of_byte. cbn [forallb].
  rewrite !hex_digit_is_hexdigit; [reflexivity| |].
  - apply N.mod_lt. lia.
  - apply N.Div0.div_lt_upper_bound. lia.
Qed.

Lemma forallb_firstn {A : Type} (f : A -> bool) (n : nat) (l : list A) :
  forallb f l = true -> forallb f (firstn n l) = true.
Proof.
  revert l. induction n as [|n IH]; intros [|x l]; cbn [firstn forallb]; auto.
  intros H. apply andb_true_iff in H. destruct H as [Hx H].
  now rewrite Hx, IH.
Qed.

Lemma hexdigest_length (bs : list byte) :
  length (flat_map Hex.of_byte bs) = (2 * length bs)%nat.
Proof.
  induction bs as [|b bs IH]; [reflexivity|].
  cbn [flat_map]. rewrite length_app, IH. cbn [Hex.of_byte length]. lia.
Qed.

Lemma digest_length (data : list byte) : length (MD5.digest data) = 16%nat.
Proof. unfold MD5.digest. rewrite length_map. reflexivity. Qed.

(** The hash suffix: eight lower-case hexadecimal digits. *)
Lemma hash_suffix_spec (data : list byte) :
  length (firstn 8 (MD5.hexdigest data)) = 8%nat
  /\ forallb Hex.is_hexdigit (firstn 8 (MD5.hexdigest data)) = true.
Proof.
  unfold MD5.hexdigest. split.
  - rewrite length_firstn, hexdigest_length, digest_length. reflexivity.
  - apply forallb_firstn, hexdigest_chars.
Qed.

Lemma hexdigit_ident_char (c : char) :
  Hex.is_hexdigit c = true -> ident_char c = true.
Proof.
  unfold Hex.is_hexdigit, ident_char, Unicode.ascii_letter, Unicode.ascii_upper,
    Unicode.ascii_lower, Unicode.ascii_digit, underscore.
  intros H. apply orb_true_iff in H.
  destruct H as [H|H]; apply andb_true_iff in H; destruct H as [H1 H2];
    apply N.leb_le in H1; apply N.leb_le in H2.
  - apply orb_true_iff. left. apply orb_true_iff. right.
    apply andb_true_iff. split; apply N.leb_le; lia.
  - apply orb_true_iff. left. apply orb_true_iff. left.
    apply orb_true_iff. right. apply andb_true_iff. split; apply N.leb_le; lia.
Qed.

Lemma ascii_isalnum (u : Unicode.db) (c : char) :
  Unicode.is_ascii c = true ->
  Unicode.isalnum u c = Unicode.ascii_letter c || Unicode.ascii_digit c.
Proof.
  intros H. unfold Unicode.isalnum, Unicode.isalpha, Unicode.isdecimal,
    Unicode.todecimal. rewrite H.
  destruct (Unicode.ascii_digit c); now rewrite orb_false_r.
Qed.

(** A sanitized character is an identifier character, unless it is an
    alphanumeric outside ASCII, which the sanitizer keeps. *)
Lemma sanitize_char_ident (u : Unicode.db) (c : char) :
  (Unicode.isalnum u c = true -> Unicode.is_ascii c = true) ->
  ident_char (sanitize_char u c) = true
  /\ (Unicode.isalpha u (sanitize_char u c) = true ->
      ident_start (sanitize_char u c) = true).
Proof.
  intros Hascii. unfold sanitize_char.
  destruct (Unicode.isalnum u c) eqn:Halnum; cbn [orb].
  - specialize (Hascii eq_refl). rewrite (ascii_isalnum u c Hascii) in Halnum.
    unfold ident_char, ident_start. rewrite Halnum. split; [reflexivity|].
    unfold Unicode.isalpha. rewrite Hascii. now intros ->.
  - destruct (c =? underscore) eqn:Hu.
    + apply N.eqb_eq in Hu. subst c. split; reflexivity.
    + split; reflexivity.
Qed.

(** The part of C2 that holds: on stems whose alphanumeric characters are
    all ASCII, the identifier follows the symbol grammar, and ends with an
    underscore and eight hexadecimal digits. *)
Lemma sanitize_ascii_grammar (fl : flavour) (u : Unicode.db) (name identifier : str) :
  sanitize_identifier fl u name = Ok identifier ->
  Forall (fun c => Unicode.isalnum u c = true -> Unicode.is_ascii c = true)
         (PathLib.stem (PathLib.parse fl name)) ->
  symbol_grammar identifier = true
  /\ exists sanitized digest,
       identifier = sanitized ++ [underscore] ++ digest
       /\ length digest = 8%nat
       /\ forallb Hex.is_hexdigit digest = true.
Proof.
  rewrite sanitize_identifier_cases.
  destruct (Utf8.encode name) as [data|e]; [|discriminate].
  destruct (PathLib.stem (PathLib.parse fl name)) as [|c rest] eqn:Hstem;
    cbn [map]; [discriminate|].
  intros H Hascii. apply Ok_inj in H. subst identifier.
  destruct (hash_suffix_spec data) as [Hlen Hhex].
  split; [|eauto].
  change ([underscore] ++ firstn 8 (MD5.hexdigest data))
    with (underscore :: firstn 8 (MD5.hexdigest data)).
  assert (Htail : forallb ident_char
                    (map (sanitize_char u) rest
                     ++ underscore :: firstn 8 (MD5.hexdigest data)) = true).
  { rewrite forallb_app. cbn [forallb]. apply andb_true_iff. split.
    - apply Forall_cons_iff in Hascii. destruct Hascii as [_ Hrest].
      rewrite forallb_forall. intros x Hx. apply in_map_iff in Hx.
      destruct Hx as (y & <- & Hy). rewrite Forall_forall in Hrest.
      apply (sanitize_char_ident u y (Hrest y Hy)).
    - apply andb_true_iff. split; [reflexivity|].
      rewrite forallb_forall. intros x Hx.
      apply hexdigit_ident_char. rewrite forallb_forall in Hhex. auto. }
  apply Forall_cons_iff in Hascii. destruct Hascii as [Hc _].
  destruct (sanitize_char_ident u c Hc) as [Hic His].
  destruct (Unicode.isalpha u (sanitize_char u c)) eqn:Halpha; cbn [negb].
  - rewrite <- app_comm_cons. cbn [symbol_grammar].
    now rewrite (His eq_refl), Htail.
  - change (lit "res_" ++ sanitize_char u c :: map (sanitize_char u) rest)
      with (114 :: 101 :: 115 :: 95 :: sanitize_char u c
                :: map (sanitize_char u) rest).
    rewrite <- !app_comm_cons. cbn [symbol_grammar forallb].
    rewrite Hic, Htail. reflexivity.
Qed.

(** C2.  The sanitizer keeps the alphanumeric characters that lie outside
    ASCII: for the file name [é.png] it returns an identifier that begins
    with [é], and for [x².png] one that holds the superscript two, neither
    of which follows the symbol grammar. *)
Theorem sanitizer_keeps_non_ascii_alphanumerics :
  sanitize_identifier Posix Unicode.latin1 ([233] ++ lit ".png")
  = Ok ([233] ++ lit "_3fe1bfd5")
  /\ symbol_grammar ([233] ++ lit "_3fe1bfd5") = false
  /\ sanitize_identifier Posix Unicode.latin1 (lit "x" ++ [178] ++ lit ".png")
     = Ok (lit "x" ++ [178] ++ lit "_9cbf2882")
  /\ symbol_grammar (lit "x" ++ [178] ++ lit "_9cbf2882") = false.
Proof. repeat split; vm_compute; reflexivity. Qed.

(** ** The run *)




(** ** The properties on the sample inputs *)

Lemma source_size_and_bytes_witness :
  exists content,
    source_content Sample.repr_integral Sample.nested Sample.nested_resources
      (lit "Resources") (lit "embedded_resources.h") = Ok content
    /\ forall identifier file_path relative_path design_scale,
         In (identifier, (file_path, relative_path, design_scale))
            Sample.nested_resources ->
         exists data size literal,
           read_bytes Sample.nested file_path = Ok data
           /\ size = Str.of_nat (length data)
           /\ Str.to_nat size = Some (length data)
           /\ literal
              = join (lit ", ") (map (fun b => lit "0x" ++ Hex.of_byte b) data)
           /\ Hex.decode literal = Some data
           /\ Str.infix
                (text [ lit "static const unsigned char " ++ identifier
                          ++ lit "_data[] = {";
                        lit "    " ++ literal;
                        lit "};";
                        [];
                        lit "const ResourceData " ++ identifier ++ lit " = {";
                        lit "    " ++ identifier ++ lit "_data,";
                        lit "    " ++ size ++ lit ",";
                        lit "    " ++ dquote ++ relative_path ++ dquote
                          ++ lit ",";
                        lit "    " ++ Sample.repr_integral design_scale
                          ++ lit "f";
                        lit "};";
                        [] ])
                content.
Proof.
  apply source_size_and_bytes_match_file. reflexivity.
Defined.

Lemma collected_identifiers_witness :
  NoDup (keys Sample.colliding_resources)
  /\ map (fun kv => fst (fst (snd kv))) Sample.colliding_resources
     = filter (eligible Sample.colliding) (rglob Sample.colliding [])
  /\ Forall (fun kv =>
               exists base k,
                 sanitize_identifier Posix Unicode.latin1 (snd (fst (snd kv)))
                 = Ok base
                 /\ fst kv = candidate base k)
            Sample.colliding_resources
  /\ forall i j kv1 kv2,
       i <> j ->
       nth_error Sample.colliding_resources i = Some kv1 ->
       nth_error Sample.colliding_resources j = Some kv2 ->
       fst kv1 <> fst kv2.
Proof.
  apply (proj1 (collected_identifiers_are_unique Posix Unicode.latin1
                  Sample.colliding [])).
  vm_compute. reflexivity.
Defined.

Lemma parse_design_scale_witness :
  exists n,
    digits_value Unicode.latin1 (lit "2") 0 = Some n
    /\ parse_design_scale Unicode.latin1 (lit "a@2x.png@3x.png")
       = Ok (Float.of_Z (Z.of_N n)).
Proof.
  apply (proj1 (parse_design_scale_spec Unicode.latin1 (lit "a@2x.png@3x.png"))
           1%nat (lit "2")).
  - split; [discriminate|]. split; [reflexivity|].
    exists (ch "x"), (lit "png"), (lit "@3x.png").
    split; [reflexivity|]. split; [left; reflexivity|reflexivity].
  - intros j ds' Hm. destruct j as [|j]; [|apply le_n_S, Nat.le_0_l].
    destruct Hm as (_ & _ & x & e & rest & _ & _ & E). discriminate E.
Defined.

(** The nested file of the specification, on both kinds of host: its
    recorded path is [assets/icons/a@2x.png] and its scale [2.0]. *)
Example nested_file_is_recorded :
  collect_resources Posix Unicode.latin1 Sample.nested []
  = Ok Sample.nested_resources
  /\ collect_resources Windows Unicode.latin1 Sample.nested []
     = Ok Sample.nested_resources
  /\ Sample.repr_integral (S754_finite false 4503599627370496 (-51))
     = lit "2.0".
Proof. repeat split; vm_compute; reflexivity. Qed.

(** The walk of [hidden]: the entries of the root, then those of the
    hidden directory. *)
Example hidden_walk :
  rglob Sample.hidden []
  = [ [lit ".cache"]; [lit ".secret.png"]; [lit "plain.png"];
      [lit ".cache"; lit "logo.png"] ]
  /\ collect_resources Posix Unicode.latin1 Sample.hidden []
     = Ok Sample.hidden_resources.
Proof. split; vm_compute; reflexivity. Qed.

Lemma missing_input_directory_witness :
  collect_resources Posix Unicode.latin1 Sample.nested [lit "missing"] = Ok [].
Proof.
  apply missing_input_directory_gives_empty_mapping. reflexivity.
Defined.

Lemma relative_path_witness :
  exists rel,
    [lit "assets"; lit "icons"; lit "a@2x.png"] = [] ++ rel
    /\ rel <> []
    /\ lit "assets/icons/a@2x.png" = join [slash] rel
    /\ parse_design_scale Unicode.latin1 (last rel [])
       = Ok (S754_finite false 4503599627370496 (-51)).
Proof.
  apply (@relative_path_is_slash_joined Windows Unicode.latin1 Sample.nested []
           Sample.nested_resources)
    with (identifier := lit "a_2x_eadcf878").
  - reflexivity.
  - vm_compute. reflexivity.
  - left. reflexivity.
Defined.

Lemma emitters_witness :
  (exists src idx datas stats,
    source_content Sample.repr_integral Sample.hidden Sample.hidden_resources
      (lit "Resources") (lit "embedded_resources.h") = Ok src
    /\ index_data Sample.hidden Sample.hidden_resources = Ok idx
    /\ Forall2 (fun kv data =>
                  read_bytes Sample.hidden (fst (fst (snd kv))) = Ok data)
               Sample.hidden_resources datas
    /\ Forall2 (fun kv st => stat Sample.hidden (fst (fst (snd kv))) = Ok st)
               Sample.hidden_resources stats
    /\ length datas = length Sample.hidden_resources
    /\ length stats = length Sample.hidden_resources
    /\ header_content Sample.hidden_resources (lit "Resources") =
         text [ lit "#pragma once";
                [];
                lit "#include <cstddef>";
                lit "#include <string_view>";
                [];
                lit "namespace " ++ lit "Resources" ++ lit " {";
                [];
                lit "struct ResourceData {";
                lit "    const unsigned char* data;";
                lit "    size_t size;";
                lit "    std::string_view path;";
                lit "    float designScale;";
                lit "};";
                [] ]
         ++ flat_map
              (fun identifier =>
                 lit "extern const ResourceData " ++ identifier ++ lit ";" ++ nl)
              (map fst Sample.hidden_resources)
         ++ text [ [];
                   lit "const ResourceData* findResource(std::string_view path);";
                   lit "const ResourceData* getAllResources();";
                   lit "size_t getResourceCount();";
                   [];
                   lit "} // namespace " ++ lit "Resources" ]
    /\ src =
         text [ lit "#include " ++ dquote ++ lit "embedded_resources.h" ++ dquote;
                lit "#include <array>";
                lit "#include <string_view>";
                lit "#include <algorithm>";
                [];
                lit "namespace " ++ lit "Resources" ++ lit " {";
                [] ]
         ++ flat_map
              (fun x : (str * entry) * list byte =>
                 let '((identifier, (_, relative_path, design_scale)), data) := x in
                 text [ lit "static const unsigned char " ++ identifier
                          ++ lit "_data[] = {";
                        lit "    "
                          ++ join (lit ", ")
                               (map (fun b => lit "0x" ++ Hex.of_byte b) data);
                        lit "};";
                        [];
                        lit "const ResourceData " ++ identifier ++ lit " = {";
                        lit "    " ++ identifier ++ lit "_data,";
                        lit "    " ++ Str.of_nat (length data) ++ lit ",";
                        lit "    " ++ dquote ++ relative_path ++ dquote
                          ++ lit ",";
                        lit "    " ++ Sample.repr_integral design_scale ++ lit "f";
                        lit "};";
                        [] ])
              (combine Sample.hidden_resources datas)
         ++ (lit "static const std::array<ResourceData, "
             ++ Str.of_nat (length Sample.hidden_resources)
             ++ lit "> all_resources = {{" ++ nl)
         ++ flat_map (fun identifier => lit "    " ++ identifier ++ lit "," ++ nl)
                     (map fst Sample.hidden_resources)
         ++ text [ lit "}};";
                   [];
                   lit "const ResourceData* findResource(std::string_view path) {";
                   lit "    auto it = std::find_if(all_resources.begin(), all_resources.end(),";
                   lit "        [path](const ResourceData& res) { return res.path == path; });";
                   lit "    return (it != all_resources.end()) ? &(*it) : nullptr;";
                   lit "}";
                   [];
                   lit "const ResourceData* getAllResources() {";
                   lit "    return all_resources.data();";
                   lit "}";
                   [];
                   lit "size_t getResourceCount() {";
                   lit "    return all_resources.size();";
                   lit "}";
                   [];
                   lit "} // namespace " ++ lit "Resources" ]
    /\ idx =
         JObject
           [ (lit "resources",
              JArray
                (map
                   (fun x : (str * entry) * (nat * float) =>
                      let '((identifier, (_, relative_path, design_scale)), st) := x in
                      JObject [ (lit "identifier", JString identifier);
                                (lit "path", JString relative_path);
                                (lit "designScale", JFloat design_scale);
                                (lit "size", JInt (fst st));
                                (lit "modified", JFloat (snd st)) ])
                   (combine Sample.hidden_resources stats))) ])
  /\ collect_resources Posix Unicode.latin1 Sample.hidden []
     = Ok Sample.hidden_resources
  /\ header_content Sample.hidden_resources (lit "Resources") =
       text [ lit "#pragma once";
              [];
              lit "#include <cstddef>";
              lit "#include <string_view>";
              [];
              lit "namespace Resources {";
              [];
              lit "struct ResourceData {";
              lit "    const unsigned char* data;";
              lit "    size_t size;";
              lit "    std::string_view path;";
              lit "    float designScale;";
              lit "};";
              [];
              lit "extern const ResourceData plain_33c11a06;";
              lit "extern const ResourceData logo_389e3531;";
              [];
              lit "const ResourceData* findResource(std::string_view path);";
              lit "const ResourceData* getAllResources();";
              lit "size_t getResourceCount();";
              [];
              lit "} // namespace Resources" ]
  /\ source_content Sample.repr_integral Sample.hidden Sample.hidden_resources
       (lit "Resources") (lit "embedded_resources.h") =
     Ok (text [ lit "#include " ++ dquote ++ lit "embedded_resources.h" ++ dquote;
                lit "#include <array>";
                lit "#include <string_view>";
                lit "#include <algorithm>";
                [];
                lit "namespace Resources {";
                [];
                lit "static const unsigned char plain_33c11a06_data[] = {";
                lit "    0x00, 0xff";
                lit "};";
                [];
                lit "const ResourceData plain_33c11a06 = {";
                lit "    plain_33c11a06_data,";
                lit "    2,";
                lit "    " ++ dquote ++ lit "plain.png" ++ dquote ++ lit ",";
                lit "    1.0f";
                lit "};";
                [];
                lit "static const unsigned char logo_389e3531_data[] = {";
                lit "    0x89, 0x50, 0x4e, 0x47, 0x0d, 0x0a, 0x1a, 0x0a";
                lit "};";
                [];
                lit "const ResourceData logo_389e3531 = {";
                lit "    logo_389e3531_data,";
                lit "    8,";
                lit "    " ++ dquote ++ lit ".cache/logo.png" ++ dquote ++ lit ",";
                lit "    1.0f";
                lit "};";
                [];
                lit "static const std::array<ResourceData, 2> all_resources = {{";
                lit "    plain_33c11a06,";
                lit "    logo_389e3531,";
                lit "}};";
                [];
                lit "const ResourceData* findResource(std::string_view path) {";
                lit "    auto it = std::find_if(all_resources.begin(), all_resources.end(),";
                lit "        [path](const ResourceData& res) { return res.path == path; });";
                lit "    return (it != all_resources.end()) ? &(*it) : nullptr;";
                lit "}";
                [];
                lit "const ResourceData* getAllResources() {";
                lit "    return all_resources.data();";
                lit "}";
                [];
                lit "size_t getResourceCount() {";
                lit "    return all_resources.size();";
                lit "}";
                [];
                lit "} // namespace Resources" ])
  /\ index_data Sample.hidden Sample.hidden_resources =
     Ok (JObject
           [ (lit "resources",
              JArray
                [ JObject [ (lit "identifier", JString (lit "plain_33c11a06"));
                            (lit "path", JString (lit "plain.png"));
                            (lit "designScale", JFloat Float.one);
                            (lit "size", JInt 2);
                            (lit "modified", JFloat Sample.mtime) ];
                  JObject [ (lit "identifier", JString (lit "logo_389e3531"));
                            (lit "path", JString (lit ".cache/logo.png"));
                            (lit "designScale", JFloat Float.one);
                            (lit "size", JInt 8);
                            (lit "modified", JFloat Sample.mtime) ] ]) ]).
Proof.
  split; [|repeat split; vm_compute; reflexivity].
  apply emitters_enumerate_the_mapping_in_order. reflexivity.
Defined.

Lemma sanitizer_domain_witness :
  (exists identifier,
      sanitize_identifier Posix Unicode.latin1 (lit "assets/icons/a@2x.png")
      = Ok identifier)
  /\ (exists identifier,
         sanitize_identifier Windows Unicode.latin1 (lit "assets\icons\a@2x.png")
         = Ok identifier)
  /\ sanitize_identifier Posix Unicode.latin1 (lit "./") = Raise IndexError
  /\ collect_resources Posix Unicode.latin1 Sample.hidden [] <> Raise IndexError.
Proof.
  split; [|split; [|split]].
  - apply (proj1 (sanitizer_domain Posix Unicode.latin1
                    (lit "assets/icons/a@2x.png") eq_refl)).
    + vm_compute. discriminate.
    + reflexivity.
  - apply (proj1 (sanitizer_domain Windows Unicode.latin1
                    (lit "assets\icons\a@2x.png") eq_refl)).
    + vm_compute. discriminate.
    + reflexivity.
  - apply (proj1 (proj2 (sanitizer_domain Posix Unicode.latin1 (lit "./")
                           eq_refl))).
    reflexivity.
  - apply (proj2 (proj2 (proj2 (proj2
             (sanitizer_domain Posix Unicode.latin1 [] eq_refl))))).
    + reflexivity.
    + reflexivity.
Defined.

(** C9, as stated, fails: the name made of the lone surrogate U+DCFF and
    [.png] has the non-empty stem U+DCFF, and the sanitizer raises
    [UnicodeEncodeError] on it. *)
Lemma surrogate_name_is_refused :
  PathLib.stem (PathLib.parse Posix ([56575] ++ lit ".png")) = [56575]
  /\ sanitize_identifier Posix Unicode.latin1 ([56575] ++ lit ".png")
     = Raise UnicodeEncodeError.
Proof. split; vm_compute; reflexivity. Qed.

Lemma hidden_directory_witness :
  exists identifier design_scale,
    In (identifier,
        ([] ++ [lit ".cache"; lit "logo.png"],
         as_posix Posix [lit ".cache"; lit "logo.png"],
         design_scale))
       Sample.hidden_resources.
Proof.
  apply (@files_under_hidden_directories_are_collected Posix Unicode.latin1
           Sample.hidden [] Sample.hidden_resources
           [lit ".cache"; lit "logo.png"] true Sample.png_bytes Sample.mtime).
  - vm_compute. reflexivity.
  - reflexivity.
  - discriminate.
  - reflexivity.
Defined.

(* ================================================================== *)
(** * Further properties of the script *)

(** ** What the collector leaves out *)

(** X1.  Every entry of the collected mapping is a path of the walk that is
    a regular file and whose own name does not start with a dot: hidden
    files, directories and other entries are never recorded. *)
Theorem collected_files_are_regular_and_visible
  (fl : flavour) (u : Unicode.db) (fs : node) (input_dir : path)
  (resources : dict) :
  collect_resources fl u fs input_dir = Ok resources ->
  forall identifier file_path normalized_path design_scale,
    In (identifier, (file_path, normalized_path, design_scale)) resources ->
    In file_path (rglob fs input_dir)
    /\ is_file fs file_path = true
    /\ Str.startswith dot (PathLib.name file_path) = false.
Proof.
  intros H identifier file_path normalized_path design_scale Hin.
  destruct (in_collected_walk fl u fs input_dir _ H Hin) as (Hw & He & _).
  cbn [fst snd] in *. split; [exact Hw|].
  unfold eligible in He. apply andb_true_iff in He. destruct He as [Hf Hd].
  split; [exact Hf|]. now apply negb_true_iff in Hd.
Qed.

Lemma collected_files_witness :
  In [lit ".cache"; lit "logo.png"] (rglob Sample.hidden [])
  /\ is_file Sample.hidden [lit ".cache"; lit "logo.png"] = true
  /\ Str.startswith dot (PathLib.name [lit ".cache"; lit "logo.png"]) = false.
Proof.
  apply (@collected_files_are_regular_and_visible Posix Unicode.latin1
           Sample.hidden [] Sample.hidden_resources)
    with (identifier := lit "logo_389e3531")
         (normalized_path := lit ".cache/logo.png")
         (design_scale := Float.one).
  - vm_compute. reflexivity.
  - right. left. reflexivity.
Defined.

(** ** The source emitter: all or nothing *)





(** ** The index emitter *)

(** X3.  The index holds one record per entry of the mapping, in order, and
    each record carries the identifier, the normalized path and the scale of
    its entry with the size and the modification time of the file, which
    need not be readable: the index emitter never opens a file. *)
Theorem index_records_describe_the_files
  (fs : node) (resources : dict) (idx : json) :
  index_data fs resources = Ok idx ->
  exists records,
    idx = JObject [ (lit "resources", JArray records) ]
    /\ Forall2
         (fun (kv : str * entry) (record : json) =>
            exists r data mtime,
              resolve fs (fst (fst (snd kv))) = Some (File r data mtime)
              /\ record =
                 JObject [ (lit "identifier", JString (fst kv));
                           (lit "path", JString (snd (fst (snd kv))));
                           (lit "designScale", JFloat (snd (snd kv)));
                           (lit "size", JInt (length data));
                           (lit "modified", JFloat mtime) ])
         resources records.
Proof.
  unfold index_data. intros H.
  destruct (index_records fs resources []) as [records|e] eqn:Hrec;
    cbn [bind] in H; [|discriminate].
  apply Ok_inj in H. subst idx. exists records. split; [reflexivity|].
  apply index_records_spec in Hrec. destruct Hrec as (stats & Hstats & ->).
  cbn [app]. induction Hstats as [|kv st rest stats Hst Hrest IH];
    cbn [combine map]; constructor; [|exact IH].
  destruct kv as [identifier [[file_path relative_path] design_scale]].
  cbn [fst snd] in *. unfold stat in Hst.
  destruct (resolve fs file_path) as [[r data mtime| |]|]; try discriminate.
  apply Ok_inj in Hst. subst st. exists r, data, mtime. split; reflexivity.
Qed.

Lemma index_records_witness :
  exists records,
    JObject [ (lit "resources",
               JArray [ index_record (lit "a_32d3ca5e") (lit "a.png") Float.one
                          (8%nat, Sample.mtime) ]) ]
    = JObject [ (lit "resources", JArray records) ]
    /\ Forall2
         (fun (kv : str * entry) (record : json) =>
            exists r data mtime,
              resolve Sample.unreadable (fst (fst (snd kv)))
              = Some (File r data mtime)
              /\ record =
                 JObject [ (lit "identifier", JString (fst kv));
                           (lit "path", JString (snd (fst (snd kv))));
                           (lit "designScale", JFloat (snd (snd kv)));
                           (lit "size", JInt (length data));
                           (lit "modified", JFloat mtime) ])
         [ (lit "a_32d3ca5e", ([lit "a.png"], lit "a.png", Float.one)) ]
         records.
Proof.
  apply index_records_describe_the_files. reflexivity.
Defined.

(** ** The whole run *)

Section Run.

Variable float_repr : float -> str.
Variable json_dump : json -> str.
Variable fl : flavour.
Variable u : Unicode.db.
Variable fs : node.
Variable a : args.



End Run.





(** ** The shape of an identifier *)

Lemma hexdigit_isalnum (u : Unicode.db) (c : char) :
  Hex.is_hexdigit c = true -> Unicode.isalnum u c = true.
Proof.
  intros H. pose proof (hexdigit_ident_char c H) as Hi.
  assert (Ha : Unicode.is_ascii c = true).
  { unfold Hex.is_hexdigit in H. unfold Unicode.is_ascii. apply N.ltb_lt.
    apply orb_true_iff in H.
    destruct H as [H|H]; apply andb_true_iff in H; destruct H as [_ H];
      apply N.leb_le in H; lia. }
  rewrite (ascii_isalnum u c Ha). unfold ident_char in Hi.
  apply orb_true_iff in Hi. destruct Hi as [Hi|Hi]; [exact Hi|].
  exfalso. apply N.eqb_eq in Hi. subst c. discriminate H.
Qed.

Lemma sanitize_char_kept (u : Unicode.db) (c : char) :
  Unicode.isalnum u (sanitize_char u c) || (sanitize_char u c =? underscore)
  = true.
Proof.
  unfold sanitize_char.
  destruct (Unicode.isalnum u c || (c =? underscore)) eqn:E; [exact E|].
  apply orb_true_r.
Qed.

(** X6.  Take a name in which [pathlib] finds no drive and no share.  An
    identifier the sanitizer returns for it is made of three parts: the
    prefix [res_] when the sanitized stem does not begin with a character
    that [str.isalpha] accepts; the sanitized stem, which is the stem of the
    name with every character that is neither an underscore nor accepted by
    [str.isalnum] replaced by an underscore, and is not empty; and an
    underscore with the first eight hexadecimal digits of the MD5 digest of
    the UTF-8 bytes of the whole name.  It begins with a character that
    [str.isalpha] accepts and consists of characters that [str.isalnum]
    accepts and of underscores. *)
Theorem sanitized_identifier_shape
  (fl : flavour) (u : Unicode.db) (name identifier : str) :
  anchor_free fl name = true ->
  sanitize_identifier fl u name = Ok identifier ->
  exists data sanitized first rest,
    Utf8.encode name = Ok data
    /\ sanitized
       = map (fun c =>
                if Unicode.isalnum u c || (c =? underscore) then c
                else underscore)
             (PathLib.stem (PathLib.parse fl name))
    /\ sanitized <> []
    /\ identifier
       = (if Unicode.isalpha u (hd underscore sanitized) then sanitized
          else lit "res_" ++ sanitized)
         ++ [underscore] ++ firstn 8 (MD5.hexdigest data)
    /\ length (firstn 8 (MD5.hexdigest data)) = 8%nat
    /\ forallb Hex.is_hexdigit (firstn 8 (MD5.hexdigest data)) = true
    /\ identifier = first :: rest
    /\ Unicode.isalpha u first = true
    /\ forallb (fun c => Unicode.isalnum u c || (c =? underscore)) identifier
       = true.
Proof.
  intros _. rewrite sanitize_identifier_cases.
  destruct (Utf8.encode name) as [data|e]; [|discriminate].
  destruct (PathLib.stem (PathLib.parse fl name)) as [|c stem];
    cbn [map]; [discriminate|].
  intros H. apply Ok_inj in H. subst identifier.
  destruct (hash_suffix_spec data) as [Hlen Hhex].
  assert (Hsan : forallb (fun c => Unicode.isalnum u c || (c =? underscore))
                   (sanitize_char u c :: map (sanitize_char u) stem) = true).
  { rewrite forallb_forall. intros x Hx.
    change (In x (map (sanitize_char u) (c :: stem))) in Hx.
    apply in_map_iff in Hx. destruct Hx as (y & <- & _).
    apply sanitize_char_kept. }
  assert (Hdig : forallb (fun c => Unicode.isalnum u c || (c =? underscore))
                   ([underscore] ++ firstn 8 (MD5.hexdigest data)) = true).
  { cbn [app forallb]. apply andb_true_iff. split; [apply orb_true_r|].
    rewrite forallb_forall. intros x Hx. rewrite forallb_forall in Hhex.
    now rewrite (hexdigit_isalnum u x (Hhex x Hx)). }
  exists data, (sanitize_char u c :: map (sanitize_char u) stem).
  change (hd underscore (sanitize_char u c :: map (sanitize_char u) stem))
    with (sanitize_char u c).
  destruct (Unicode.isalpha u (sanitize_char u c)) eqn:Halpha; cbn [negb].
  - exists (sanitize_char u c),
      (map (sanitize_char u) stem ++ [underscore]
       ++ firstn 8 (MD5.hexdigest data)).
    split; [reflexivity|]. split; [reflexivity|]. split; [discriminate|].
    split; [reflexivity|]. split; [exact Hlen|]. split; [exact Hhex|].
    split; [reflexivity|]. split; [exact Halpha|].
    now rewrite forallb_app, Hsan, Hdig.
  - exists 114, (101 :: 115 :: 95 :: (sanitize_char u c
                     :: map (sanitize_char u) stem)
                 ++ [underscore] ++ firstn 8 (MD5.hexdigest data)).
    split; [reflexivity|]. split; [reflexivity|]. split; [discriminate|].
    split; [reflexivity|]. split; [exact Hlen|]. split; [exact Hhex|].
    split; [reflexivity|]. split; [reflexivity|].
    rewrite forallb_app, Hdig, andb_true_r.
    change (lit "res_" ++ sanitize_char u c :: map (sanitize_char u) stem)
      with (114 :: 101 :: 115 :: 95 :: sanitize_char u c
                :: map (sanitize_char u) stem).
    change (forallb (fun c => Unicode.isalnum u c || (c =? underscore))
              (114 :: 101 :: 115 :: 95 :: sanitize_char u c
                   :: map (sanitize_char u) stem))
      with (true && (true && (true && (true &&
            forallb (fun c => Unicode.isalnum u c || (c =? underscore))
              (sanitize_char u c :: map (sanitize_char u) stem))))).
    now rewrite Hsan.
Qed.

Lemma sanitized_identifier_witness :
  exists data sanitized first rest,
    Utf8.encode (lit "a/2 b-c.tar.gz") = Ok data
    /\ sanitized
       = map (fun c =>
                if Unicode.isalnum Unicode.latin1 c || (c =? underscore) then c
                else underscore)
             (PathLib.stem (PathLib.parse Posix (lit "a/2 b-c.tar.gz")))
    /\ sanitized <> []
    /\ lit "res_2_b_c_tar_5a4348b7"
       = (if Unicode.isalpha Unicode.latin1 (hd underscore sanitized)
          then sanitized else lit "res_" ++ sanitized)
         ++ [underscore] ++ firstn 8 (MD5.hexdigest data)
    /\ length (firstn 8 (MD5.hexdigest data)) = 8%nat
    /\ forallb Hex.is_hexdigit (firstn 8 (MD5.hexdigest data)) = true
    /\ lit "res_2_b_c_tar_5a4348b7" = first :: rest
    /\ Unicode.isalpha Unicode.latin1 first = true
    /\ forallb (fun c => Unicode.isalnum Unicode.latin1 c || (c =? underscore))
               (lit "res_2_b_c_tar_5a4348b7")
       = true.
Proof.
  apply (@sanitized_identifier_shape Posix Unicode.latin1 (lit "a/2 b-c.tar.gz")).
  - reflexivity.
  - vm_compute. reflexivity.
Defined.

(** ** The scale parser and the case of letters *)

Section CaseFolding.

Variable u : Unicode.db.

Lemma lower_idem (c : char) : Regex.lower (Regex.lower c) = Regex.lower c.
Proof.
  unfold Regex.lower, Unicode.ascii_upper.
  destruct ((65 <=? c) && (c <=? 90)) eqn:E; [|now rewrite E].
  apply andb_true_iff in E. destruct E as [E1 E2].
  apply N.leb_le in E1. apply N.leb_le in E2.
  assert (E : (65 <=? c + 32) && (c + 32 <=? 90) = false)
    by (apply andb_false_iff; right; apply N.leb_gt; lia).
  now rewrite E.
Qed.

Lemma todecimal_lower (c : char) :
  Unicode.todecimal u (Regex.lower c) = Unicode.todecimal u c.
Proof.
  unfold Regex.lower, Unicode.ascii_upper.
  destruct ((65 <=? c) && (c <=? 90)) eqn:E; [|reflexivity].
  apply andb_true_iff in E. destruct E as [E1 E2].
  apply N.leb_le in E1. apply N.leb_le in E2.
  unfold Unicode.todecimal, Unicode.is_ascii, Unicode.ascii_digit.
  assert (A1 : (c + 32 <? 128) = true) by (apply N.ltb_lt; lia).
  assert (A2 : (c <? 128) = true) by (apply N.ltb_lt; lia).
  assert (D1 : (48 <=? c + 32) && (c + 32 <=? 57) = false)
    by (apply andb_false_iff; right; apply N.leb_gt; lia).
  assert (D2 : (48 <=? c) && (c <=? 57) = false)
    by (apply andb_false_iff; right; apply N.leb_gt; lia).
  now rewrite A1, A2, D1, D2.
Qed.

Lemma isdecimal_lower (c : char) :
  Unicode.isdecimal u (Regex.lower c) = Unicode.isdecimal u c.
Proof. unfold Unicode.isdecimal. now rewrite todecimal_lower. Qed.

Let fold_str (s : str) : str := map Regex.lower s.
Let fold_match (m : list str * str) : list str * str :=
  (map fold_str (fst m), fold_str (snd m)).

Lemma plus_lower (s : str) :
  Regex.plus (Unicode.isdecimal u) (fold_str s)
  = map fold_str (Regex.plus (Unicode.isdecimal u) s).
Proof.
  induction s as [|x s IH]; [reflexivity|].
  unfold fold_str in *. cbn [map Regex.plus]. rewrite isdecimal_lower.
  destruct (Unicode.isdecimal u x); [|reflexivity].
  now rewrite IH, map_app.
Qed.

Lemma flat_map_map_list {A B C : Type} (f : B -> list C) (g : A -> B)
  (l : list A) :
  flat_map f (map g l) = flat_map (fun x => f (g x)) l.
Proof. induction l as [|x l IH]; cbn [map flat_map]; [reflexivity|now rewrite IH]. Qed.

Lemma map_flat_map {A B C : Type} (f : A -> list B) (g : B -> C) (l : list A) :
  map g (flat_map f l) = flat_map (fun x => map g (f x)) l.
Proof.
  induction l as [|x l IH]; cbn [flat_map map]; [reflexivity|].
  now rewrite map_app, IH.
Qed.

(** The matcher commutes with the folding of ASCII letters to lower case:
    the subject folded matches in the same ways, with the groups and the
    rest folded. *)
Lemma run_lower (r : Regex.regex) :
  forall s, Regex.run u r (fold_str s) = map fold_match (Regex.run u r s).
Proof.
  induction r as [c| |r1 IH1 r2 IH2|r1 IH1 r2 IH2|r1 IH1]; intros s.
  - destruct s as [|x t]; [reflexivity|].
    unfold fold_str. cbn [map Regex.run]. unfold Regex.lit_match.
    rewrite lower_idem. destruct (Regex.lower x =? Regex.lower c); reflexivity.
  - cbn [Regex.run]. rewrite plus_lower, !map_map. reflexivity.
  - cbn [Regex.run]. rewrite IH1, flat_map_map_list, map_flat_map.
    apply flat_map_ext. intros m1. cbn [fold_match snd fst].
    rewrite IH2, !map_map. apply map_ext. intros m2.
    unfold fold_match. cbn [fst snd]. now rewrite map_app.
  - cbn [Regex.run]. now rewrite IH1, IH2, map_app.
  - cbn [Regex.run]. rewrite IH1, !map_map. apply map_ext. intros m.
    unfold fold_match. cbn [fst snd map]. unfold fold_str.
    now rewrite !length_map, firstn_map.
Qed.

Lemma search_lower (r : Regex.regex) (s : str) :
  Regex.search u r (fold_str s)
  = option_map (map fold_str) (Regex.search u r s).
Proof.
  induction s as [|x t IH].
  - assert (L : Regex.search u r (fold_str [])
                = match map fold_match (Regex.run u r []) with
                  | m :: _ => Some (fst m)
                  | [] => None
                  end)
      by (rewrite <- (run_lower r []); reflexivity).
    etransitivity; [exact L|]. cbn [Regex.search].
    destruct (Regex.run u r []); reflexivity.
  - assert (L : Regex.search u r (fold_str (x :: t))
                = match map fold_match (Regex.run u r (x :: t)) with
                  | m :: _ => Some (fst m)
                  | [] => Regex.search u r (fold_str t)
                  end)
      by (rewrite <- (run_lower r (x :: t)); reflexivity).
    etransitivity; [exact L|]. cbn [Regex.search].
    destruct (Regex.run u r (x :: t)); [exact IH|reflexivity].
Qed.

Lemma digits_value_lower (ds : str) :
  forall acc, digits_value u (fold_str ds) acc = digits_value u ds acc.
Proof.
  induction ds as [|c ds IH]; intros acc; [reflexivity|].
  change (fold_str (c :: ds)) with (Regex.lower c :: fold_str ds).
  cbn [digits_value]. rewrite todecimal_lower.
  destruct (Unicode.todecimal u c); [apply IH|reflexivity].
Qed.

Lemma py_float_lower (ds : str) : py_float u (fold_str ds) = py_float u ds.
Proof.
  unfold py_float. rewrite digits_value_lower.
  destruct ds; reflexivity.
Qed.

(** Folding the ASCII letters of a file name to lower case does not change
    its scale. *)
Lemma parse_design_scale_lower (filename : str) :
  parse_design_scale u (map Regex.lower filename)
  = parse_design_scale u filename.
Proof.
  unfold parse_design_scale.
  change (map Regex.lower filename) with (fold_str filename).
  rewrite search_lower.
  destruct (Regex.search u scale_pattern filename) as [groups|];
    cbn [option_map]; [|reflexivity].
  change (@nil char) with (fold_str []) at 1. rewrite map_nth.
  apply py_float_lower.
Qed.

End CaseFolding.

(** X7.  Two file names that differ only in the case of their ASCII letters
    have the same scale: [A@2X.PNG] is read as [a@2x.png] is. *)
Theorem scale_ignores_letter_case (u : Unicode.db) (name1 name2 : str) :
  map Regex.lower name1 = map Regex.lower name2 ->
  parse_design_scale u name1 = parse_design_scale u name2.
Proof.
  intros H. rewrite <- (parse_design_scale_lower u name1), H.
  apply parse_design_scale_lower.
Qed.

Lemma scale_ignores_letter_case_witness :
  parse_design_scale Unicode.latin1 (lit "Logo@3X.JPeG")
  = parse_design_scale Unicode.latin1 (lit "logo@3x.jpeg").
Proof.
  apply scale_ignores_letter_case. reflexivity.
Defined.

(** ** The numeric suffixes *)

(** The loop returns the first candidate that is not a key: every
    candidate before it is one. *)
Lemma dedup_first_free (resources : dict) (original : str) (budget : nat) :
  forall counter identifier,
    (0 < counter)%nat ->
    (forall j, (j < pred counter)%nat ->
               contains resources (candidate original j) = true) ->
    dedup budget resources original counter
          (candidate original (pred counter)) = Ok identifier ->
    exists k,
      identifier = candidate original k
      /\ contains resources identifier = false
      /\ forall j, (j < k)%nat ->
                   contains resources (candidate original j) = true.
Proof.
  induction budget as [|b IH]; intros counter identifier Hpos Hbefore H;
    cbn [dedup] in H;
    destruct (contains resources (candidate original (pred counter))) eqn:Hc;
    try discriminate.
  - apply Ok_inj in H. subst. now exists (pred counter).
  - destruct counter as [|c]; [lia|]. cbn [pred] in *.
    apply (IH (S (S c)) identifier); [lia| |].
    + cbn [pred]. intros j Hj.
      destruct (Nat.eq_dec j c) as [->|Hne]; [exact Hc|].
      apply Hbefore. lia.
    + cbn [pred]. exact H.
  - apply Ok_inj in H. subst. now exists (pred counter).
Qed.

Lemma collect_file_gapless (fl : flavour) (u : Unicode.db) (fs : node)
  (input_dir : path) (resources resources' : dict) (file_path : path) :
  gapless fl u resources ->
  collect_file fl u fs input_dir resources file_path = Ok resources' ->
  gapless fl u resources'.
Proof.
  intros Hgap. unfold collect_file.
  destruct (eligible fs file_path); intros H;
    [|apply Ok_inj in H; now subst].
  destruct (relative_to file_path input_dir) as [rel|e];
    cbn [bind] in H; [|discriminate].
  destruct (sanitize_identifier fl u (as_posix fl rel)) as [base|e] eqn:Hbase;
    cbn [bind] in H; [|discriminate].
  destruct (parse_design_scale u (PathLib.name file_path)) as [scale|e];
    cbn [bind] in H; [|discriminate].
  destruct (dedup (length resources) resources base 1 base) as [identifier|e]
    eqn:Hdedup; cbn [bind] in H; [|discriminate].
  apply Ok_inj in H.
  apply dedup_first_free with (counter := 1%nat) in Hdedup;
    [|lia|cbn [pred]; intros j Hj; lia].
  destruct Hdedup as (k & -> & Hfresh & Hbelow).
  rewrite dict_set_fresh in H by exact Hfresh. subst resources'.
  intros id fp norm sc Hin. apply in_app_or in Hin.
  destruct Hin as [Hin|[Hin|[]]].
  - destruct (Hgap id fp norm sc Hin) as (base' & k' & Hb & -> & Hk).
    exists base', k'. split; [exact Hb|]. split; [reflexivity|].
    intros j Hj. unfold keys. rewrite map_app. apply in_or_app. left.
    now apply Hk.
  - injection Hin as <- <- <- <-. exists base, k. split; [exact Hbase|].
    split; [reflexivity|]. intros j Hj. unfold keys. rewrite map_app.
    apply in_or_app. left. apply contains_in. now apply Hbelow.
Qed.

Lemma collect_loop_gapless (fl : flavour) (u : Unicode.db) (fs : node)
  (input_dir : path) (files : list path) :
  forall resources resources',
    gapless fl u resources ->
    collect_loop fl u fs input_dir files resources = Ok resources' ->
    gapless fl u resources'.
Proof.
  induction files as [|file_path files IH]; intros resources resources' Hgap H;
    cbn [collect_loop] in H.
  - apply Ok_inj in H. now subst.
  - destruct (collect_file fl u fs input_dir resources file_path)
      as [resources1|e] eqn:Hfile; cbn [bind] in H; [|discriminate].
    apply (IH resources1 resources'); [|exact H].
    eapply collect_file_gapless; [exact Hgap|exact Hfile].
Qed.

(** X8.  The numeric suffixes are given in order and without gaps: when an
    identifier of the mapping is the sanitized identifier of its file with
    the suffix [_k], the sanitized identifier itself and the same with each
    of the suffixes [_1] to [_(k-1)] are identifiers of the mapping too. *)
Theorem suffixes_leave_no_gap
  (fl : flavour) (u : Unicode.db) (fs : node) (input_dir : path)
  (resources : dict) :
  collect_resources fl u fs input_dir = Ok resources ->
  forall identifier file_path normalized_path design_scale,
    In (identifier, (file_path, normalized_path, design_scale)) resources ->
    exists base k,
      sanitize_identifier fl u normalized_path = Ok base
      /\ identifier = candidate base k
      /\ forall j, (j < k)%nat -> In (candidate base j) (keys resources).
Proof.
  unfold collect_resources.
  destruct (negb (exists_ fs input_dir)); intros H.
  - apply Ok_inj in H. subst. intros ? ? ? ? [].
  - eapply collect_loop_gapless; [|exact H].
    intros ? ? ? ? [].
Qed.

Lemma suffixes_witness :
  exists base k,
    sanitize_identifier Posix Unicode.latin1 (lit "icon++%+  .png") = Ok base
    /\ lit "icon_______8f000805_1" = candidate base k
    /\ forall j, (j < k)%nat ->
                 In (candidate base j) (keys Sample.colliding_resources).
Proof.
  apply (@suffixes_leave_no_gap Posix Unicode.latin1 Sample.colliding []
           Sample.colliding_resources)
    with (file_path := [lit "icon++%+  .png"]) (design_scale := Float.one).
  - vm_compute. reflexivity.
  - right. left. reflexivity.
Defined.

(** ** Names that cannot be encoded *)

Lemma surrogate_in_join (c : char) (rel : list str) (nm : str) :
  In nm rel -> existsb Utf8.is_surrogate nm = true ->
  existsb Utf8.is_surrogate (join [c] rel) = true.
Proof.
  intros Hin Hs. induction rel as [|p rest IH]; [destruct Hin|].
  destruct rest as [|q rest].
  - destruct Hin as [->|[]]. exact Hs.
  - change (join [c] (p :: q :: rest)) with (p ++ [c] ++ join [c] (q :: rest)).
    rewrite !existsb_app. destruct Hin as [->|Hin].
    + now rewrite Hs.
    + rewrite (IH Hin). now rewrite !orb_true_r.
Qed.

Lemma surrogate_in_replace (old : char) (s : str) :
  Utf8.is_surrogate old = false ->
  existsb Utf8.is_surrogate s = true ->
  existsb Utf8.is_surrogate (Str.replace old slash s) = true.
Proof.
  intros Hold. unfold Str.replace.
  induction s as [|x s IH]; cbn [map existsb]; [auto|].
  intros H. apply orb_true_iff in H. apply orb_true_iff.
  destruct H as [H|H]; [left|right; auto].
  destruct (N.eqb_spec x old) as [->|_]; [congruence|exact H].
Qed.

Lemma surrogate_in_as_posix (fl : flavour) (rel : path) (nm : str) :
  In nm rel -> existsb Utf8.is_surrogate nm = true ->
  existsb Utf8.is_surrogate (as_posix fl rel) = true.
Proof.
  intros Hin Hs. unfold as_posix, to_str.
  destruct rel as [|p rest]; [destruct Hin|].
  apply surrogate_in_replace; [destruct fl; reflexivity|].
  now apply surrogate_in_join with (nm := nm).
Qed.

Lemma collect_loop_stops_on_surrogate (fl : flavour) (u : Unicode.db)
  (fs : node) (input_dir : path) (rel : path) (files : list path) :
  Forall (fun file_path =>
            eligible fs file_path = true ->
            exists rel', file_path = input_dir ++ rel'
                         /\ PathLib.stem (PathLib.parse fl (as_posix fl rel')) <> [])
         files ->
  In (input_dir ++ rel) files ->
  eligible fs (input_dir ++ rel) = true ->
  existsb Utf8.is_surrogate (as_posix fl rel) = true ->
  forall resources,
    collect_loop fl u fs input_dir files resources = Raise UnicodeEncodeError.
Proof.
  intros Hall Hin Hel Hs.
  induction Hall as [|file_path files Hfile Hfiles IH]; [destruct Hin|].
  intros resources. cbn [collect_loop].
  destruct Hin as [->|Hin].
  - unfold collect_file. rewrite Hel, relative_to_app. cbn [bind].
    rewrite sanitize_identifier_cases, (encode_surrogate _ Hs). reflexivity.
  - destruct (collect_file_total fl u fs input_dir resources Hfile)
      as [(resources1 & ->)|(-> & _)]; cbn [bind]; [|reflexivity].
    now apply IH.
Qed.

(** X9.  One visible regular file whose path below the input directory
    holds a lone surrogate, in its own name or in the name of a directory
    above it, stops the whole run: the collector raises
    [UnicodeEncodeError], and the run ends with that error before any file
    is written or any line printed. *)
Theorem undecodable_name_stops_the_run
  (float_repr : float -> str) (json_dump : json -> str)
  (fl : flavour) (u : Unicode.db) (fs : node) (a : args) (w : world)
  (rel : path) (r : bool) (data : list byte) (mtime : float) :
  wf_names fl fs = true ->
  resolve fs (arg_input_dir a ++ rel) = Some (File r data mtime) ->
  rel <> [] ->
  Str.startswith dot (last rel []) = false ->
  (exists nm, In nm rel /\ existsb Utf8.is_surrogate nm = true) ->
  collect_resources fl u fs (arg_input_dir a) = Raise UnicodeEncodeError
  /\ main float_repr json_dump fl u fs a w = (Raise UnicodeEncodeError, w).
Proof.
  intros Hwf Hfile Hne Hdot (nm & Hnm & Hs).
  assert (Hc : collect_resources fl u fs (arg_input_dir a)
               = Raise UnicodeEncodeError).
  { assert (Hel : eligible fs (arg_input_dir a ++ rel) = true).
    { unfold eligible, is_file, PathLib.name. rewrite Hfile.
      rewrite last_app_right by exact Hne. now rewrite Hdot. }
    unfold collect_resources, exists_, rglob. rewrite resolve_app in Hfile.
    destruct (resolve fs (arg_input_dir a)) as [n|] eqn:Hres; [|discriminate].
    cbn [negb].
    apply collect_loop_stops_on_surrogate with (rel := rel).
    - now apply rglob_stems.
    - eapply rglob_from_complete; [exact Hne|exact Hfile].
    - exact Hel.
    - now apply surrogate_in_as_posix with (nm := nm). }
  split; [exact Hc|]. unfold main. now rewrite Hc.
Qed.

Lemma undecodable_name_witness :
  collect_resources Posix Unicode.latin1
    (Dir [ (lit "ok.png", File true [] Sample.mtime);
           ([56575], Dir [ (lit "b.png", File true [] Sample.mtime) ]) ])
    (arg_input_dir Sample.arguments)
  = Raise UnicodeEncodeError
  /\ main Sample.repr_integral Sample.count_records Posix Unicode.latin1
       (Dir [ (lit "ok.png", File true [] Sample.mtime);
              ([56575], Dir [ (lit "b.png", File true [] Sample.mtime) ]) ])
       Sample.arguments empty_world
     = (Raise UnicodeEncodeError, empty_world).
Proof.
  apply undecodable_name_stops_the_run
    with (rel := [[56575]; lit "b.png"]) (r := true) (data := [])
         (mtime := Sample.mtime).
  - reflexivity.
  - reflexivity.
  - discriminate.
  - reflexivity.
  - exists [56575]. split; [left; reflexivity|reflexivity].
Defined.

(** ** The recorded paths are distinct *)

Lemma distinct_NoDup (l : list str) : distinct l = true -> NoDup l.
Proof.
  induction l as [|x l IH]; cbn [distinct]; [constructor|].
  intros H. apply andb_true_iff in H. destruct H as [Hx H].
  constructor; [|now apply IH].
  intros Hin. apply negb_true_iff in Hx.
  assert (He : existsb (Str.eqb x) l = true)
    by (apply existsb_exists; exists x; split; [exact Hin|apply str_eqb_refl]).
  congruence.
Qed.

(** A path of the walk extends the path of the directory walked. *)
Lemma rglob_from_extends (n : node) :
  forall at_ p, In p (rglob_from at_ n) -> exists rel, p = at_ ++ rel /\ rel <> [].
Proof.
  induction n as [r d m| |es IH] using node_ind_entries;
    intros at_ p Hin; cbn [rglob_from] in Hin; try destruct Hin.
  apply in_app_or in Hin. destruct Hin as [Hin|Hin].
  - apply in_map_iff in Hin. destruct Hin as (e & <- & _).
    exists [fst e]. split; [reflexivity|discriminate].
  - apply in_flat_map in Hin. destruct Hin as (e & He & Hin).
    rewrite Forall_forall in IH.
    destruct (IH e He (at_ ++ [fst e]) p Hin) as (rel & -> & _).
    exists (fst e :: rel). split; [now rewrite <- app_assoc|discriminate].
Qed.

Lemma NoDup_flat_map_disjoint {A B : Type} (f : A -> list B) (l : list A) :
  Forall (fun x => NoDup (f x)) l ->
  ForallOrdPairs (fun x y => forall b, In b (f x) -> ~ In b (f y)) l ->
  NoDup (flat_map f l).
Proof.
  intros Hall Hpairs. induction Hpairs as [|x l Hx Hl IH]; cbn [flat_map];
    [constructor|].
  apply Forall_cons_iff in Hall. destruct Hall as [Hfx Hall].
  apply NoDup_app; [exact Hfx|now apply IH|].
  intros b Hb Hin. apply in_flat_map in Hin. destruct Hin as (y & Hy & Hby).
  rewrite Forall_forall in Hx. exact (Hx y Hy b Hb Hby).
Qed.

Lemma NoDup_ForallOrdPairs_fst {A B : Type} (l : list (A * B)) :
  NoDup (map fst l) -> ForallOrdPairs (fun x y => fst x <> fst y) l.
Proof.
  induction l as [|x l IH]; cbn [map]; intros H; [constructor|].
  apply NoDup_cons_iff in H. destruct H as [Hx H].
  constructor; [|now apply IH].
  apply Forall_forall. intros y Hy E. apply Hx. rewrite E.
  now apply in_map.
Qed.

Lemma ForallOrdPairs_impl_in {A : Type} (R S : A -> A -> Prop) (l : list A) :
  (forall x y, In x l -> In y l -> R x y -> S x y) ->
  ForallOrdPairs R l -> ForallOrdPairs S l.
Proof.
  intros HRS H. induction H as [|x l Hx Hl IH]; [constructor|].
  constructor.
  - apply Forall_forall. intros y Hy. rewrite Forall_forall in Hx.
    apply HRS; [now left|now right|now apply Hx].
  - apply IH. intros a b Ha Hb. apply HRS; now right.
Qed.

(** The walk of a tree in which the entries of each directory have
    different names meets no path twice. *)
Lemma rglob_from_NoDup (n : node) :
  forall at_, unique_names n = true -> NoDup (rglob_from at_ n).
Proof.
  induction n as [r d m| |es IH] using node_ind_entries;
    intros at_ Hu; cbn [rglob_from]; try constructor.
  cbn [unique_names] in Hu. apply andb_true_iff in Hu.
  destruct Hu as [Hd Hsub]. apply distinct_NoDup in Hd.
  rewrite forallb_forall in Hsub. rewrite Forall_forall in IH.
  apply NoDup_app.
  - clear IH Hsub. induction es as [|e es IHes]; cbn [map] in *; [constructor|].
    apply NoDup_cons_iff in Hd. destruct Hd as [He Hd].
    constructor; [|now apply IHes].
    intros Hin. apply in_map_iff in Hin. destruct Hin as (e' & E & He').
    apply app_inv_head in E. injection E as E. apply He. rewrite <- E.
    now apply in_map.
  - apply NoDup_flat_map_disjoint.
    + apply Forall_forall. intros e He. apply IH; [exact He|now apply Hsub].
    + apply ForallOrdPairs_impl_in with (R := fun x y => fst x <> fst y);
        [|now apply NoDup_ForallOrdPairs_fst].
      intros x y _ _ Hxy p Hp Hq.
      apply rglob_from_extends in Hp. destruct Hp as (rel1 & -> & _).
      apply rglob_from_extends in Hq. destruct Hq as (rel2 & E & _).
      rewrite <- !app_assoc in E. apply app_inv_head in E.
      injection E as E _. contradiction.
  - intros p Hp Hq. apply in_map_iff in Hp. destruct Hp as (e & <- & _).
    apply in_flat_map in Hq. destruct Hq as (e' & _ & Hq).
    apply rglob_from_extends in Hq. destruct Hq as (rel & E & Hne).
    rewrite <- app_assoc in E. apply app_inv_head in E.
    injection E as _ E. destruct rel; [congruence|discriminate].
Qed.

Lemma resolve_unique_names (p : path) :
  forall n n', unique_names n = true -> resolve n p = Some n' ->
               unique_names n' = true.
Proof.
  induction p as [|c p IH]; intros n n' Hu H; cbn [resolve] in H.
  - congruence.
  - destruct n as [| es |]; try discriminate.
    destruct (lookup c es) as [n1|] eqn:El; [|discriminate].
    apply lookup_in in El. apply (IH n1 n'); [|exact H].
    cbn [unique_names] in Hu. apply andb_true_iff in Hu. destruct Hu as [_ Hu].
    rewrite forallb_forall in Hu. exact (Hu (c, n1) El).
Qed.

Lemma NoDup_map_transfer {A B C : Type} (f : A -> B) (g : A -> C) (l : list A) :
  (forall x y, In x l -> In y l -> f x = f y -> g x = g y) ->
  NoDup (map g l) -> NoDup (map f l).
Proof.
  intros Hfg. induction l as [|x l IH]; cbn [map]; intros H; [constructor|].
  apply NoDup_cons_iff in H. destruct H as [Hx H].
  constructor.
  - intros Hin. apply in_map_iff in Hin. destruct Hin as (y & E & Hy).
    apply Hx. rewrite <- (Hfg y x); [now apply in_map|now right|now left|exact E].
  - apply IH; [|exact H]. intros a b Ha Hb. apply Hfg; now right.
Qed.

(** The recorded path of an entry, with the names it is made of. *)
Lemma relative_path_normal
  (fl : flavour) (u : Unicode.db) (fs : node) (input_dir : path)
  (resources : dict) :
  wf_names fl fs = true ->
  collect_resources fl u fs input_dir = Ok resources ->
  forall identifier file_path normalized_path design_scale,
    In (identifier, (file_path, normalized_path, design_scale)) resources ->
    exists rel,
      file_path = input_dir ++ rel
      /\ rel <> []
      /\ normalized_path = join [slash] rel
      /\ Forall (fun p => forallb (fun x => negb (is_sep fl x)) p = true) rel.
Proof.
  intros Hwf H identifier file_path normalized_path design_scale Hin.
  destruct (in_collected_walk fl u fs input_dir _ H Hin) as (Hw & _ & Hc).
  cbn [fst snd] in Hw.
  destruct Hc as (rel & base & k & -> & -> & _).
  unfold rglob in Hw.
  destruct (resolve fs input_dir) as [n|] eqn:Hres; [|destruct Hw].
  assert (Hn : all_names (valid_name fl) n = true)
    by (eapply resolve_all_names; [exact Hwf|exact Hres]).
  destruct (rglob_from_below _ _ _ _ Hn Hw) as (rel' & E & Hne & Hall).
  apply app_inv_head in E. subst rel'.
  exists rel. split; [reflexivity|]. split; [exact Hne|].
  split; [now apply as_posix_join|].
  eapply Forall_impl; [|exact Hall]. intros nm. apply valid_name_no_sep.
Qed.

(** X10.  On a tree of ordinary names in which the entries of each
    directory have different names, no two entries of the mapping record
    the same file and no two record the same normalized path: a path names
    one resource at most. *)
Theorem recorded_paths_are_distinct
  (fl : flavour) (u : Unicode.db) (fs : node) (input_dir : path)
  (resources : dict) :
  wf_names fl fs = true ->
  unique_names fs = true ->
  collect_resources fl u fs input_dir = Ok resources ->
  NoDup (map (fun kv : str * entry => fst (fst (snd kv))) resources)
  /\ NoDup (map (fun kv : str * entry => snd (fst (snd kv))) resources).
Proof.
  intros Hwf Hu H.
  pose proof (collect_resources_ok _ _ _ _ H) as (_ & Hpaths & _).
  assert (Hnd : NoDup (map (fun kv : str * entry => fst (fst (snd kv)))
                        resources)).
  { unfold entry in *. rewrite Hpaths. apply NoDup_filter. unfold rglob.
    destruct (resolve fs input_dir) as [n|] eqn:Hres; [|constructor].
    apply rglob_from_NoDup.
    eapply resolve_unique_names; [exact Hu|exact Hres]. }
  split; [exact Hnd|].
  apply NoDup_map_transfer
    with (g := fun kv : str * entry => fst (fst (snd kv))); [|exact Hnd].
  intros [id1 [[fp1 norm1] sc1]] [id2 [[fp2 norm2] sc2]] H1 H2 E.
  cbn [fst snd] in *. subst norm2.
  destruct (relative_path_normal fl u fs input_dir Hwf H _ _ _ _ H1)
    as (rel1 & -> & Hne1 & Hn1 & Hv1).
  destruct (relative_path_normal fl u fs input_dir Hwf H _ _ _ _ H2)
    as (rel2 & -> & Hne2 & Hn2 & Hv2).
  f_equal. rewrite Hn1 in Hn2.
  apply (f_equal (Str.split (is_sep fl))) in Hn2.
  rewrite !split_join in Hn2; try assumption; apply is_sep_slash.
Qed.

Lemma recorded_paths_witness :
  NoDup (map (fun kv : str * entry => fst (fst (snd kv))) Sample.hidden_resources)
  /\ NoDup (map (fun kv : str * entry => snd (fst (snd kv)))
                Sample.hidden_resources).
Proof.
  apply (@recorded_paths_are_distinct Posix Unicode.latin1 Sample.hidden []).
  - reflexivity.
  - reflexivity.
  - vm_compute. reflexivity.
Defined.

(** ** Decimal numerals *)

Lemma uint_digits (d : Decimal.uint) :
  forallb Unicode.ascii_digit (lit (DecimalString.NilEmpty.string_of_uint d))
  = true.
Proof. induction d; cbn; auto. Qed.

Lemma of_nat_digits (n : nat) : forallb Unicode.ascii_digit (Str.of_nat n) = true.
Proof. apply uint_digits. Qed.

Lemma of_nat_not_nil (n : nat) : Str.of_nat n <> [].
Proof.
  intros H. pose proof (to_nat_of_nat n) as E. rewrite H in E.
  assert (n = 0%nat) by (cbn in E; congruence). subst n. discriminate H.
Qed.

Lemma ascii_digit_isdecimal (u : Unicode.db) (c : char) :
  Unicode.ascii_digit c = true -> Unicode.isdecimal u c = true.
Proof.
  intros H. unfold Unicode.isdecimal, Unicode.todecimal, Unicode.is_ascii.
  assert (A : (c <? 128) = true).
  { unfold Unicode.ascii_digit in H. apply andb_true_iff in H.
    destruct H as [_ H]. apply N.leb_le in H. apply N.ltb_lt. lia. }
  now rewrite A, H.
Qed.

(** The digits of a numeral are read back as the number. *)
Lemma digits_value_uint (u : Unicode.db) (d : Decimal.uint) :
  forall acc,
    digits_value u (lit (DecimalString.NilEmpty.string_of_uint d)) (N.of_nat acc)
    = Some (N.of_nat (Nat.of_uint_acc d acc)).
Proof.
  induction d as [|d IH|d IH|d IH|d IH|d IH|d IH|d IH|d IH|d IH|d IH];
    intros acc; [reflexivity|..];
    cbn [DecimalString.NilEmpty.string_of_uint Nat.of_uint_acc];
    match goal with
    | |- digits_value _ (lit (String ?a ?s)) _ = _ =>
        change (lit (String a s)) with (N_of_ascii a :: lit s)
    end;
    cbn [digits_value];
    match goal with
    | |- context [Unicode.todecimal u ?c] =>
        let v := eval vm_compute in (Unicode.todecimal Unicode.latin1 c) in
        change (Unicode.todecimal u c) with v
    end;
    cbv iota; rewrite <- IH; f_equal;
    rewrite Nat.tail_mul_spec; lia.
Qed.

Lemma digits_value_of_nat (u : Unicode.db) (n : nat) :
  digits_value u (Str.of_nat n) 0 = Some (N.of_nat n).
Proof.
  unfold Str.of_nat. change 0 with (N.of_nat 0).
  rewrite digits_value_uint. f_equal. f_equal.
  apply DecimalNat.Unsigned.of_to.
Qed.

(** ** The scale of a marked name *)

Lemma no_marker_before_at (u : Unicode.db) (stem tail ds : str) (j : nat) :
  forallb (fun c => negb (c =? ch "@")) stem = true ->
  (j < length stem)%nat ->
  ~ density_marker u ds (skipn j (stem ++ tail)).
Proof.
  revert j. induction stem as [|c stem IH]; intros j Hno Hj; cbn [length] in Hj;
    [lia|].
  cbn [forallb] in Hno. apply andb_true_iff in Hno. destruct Hno as [Hc Hno].
  destruct j as [|j].
  - cbn [skipn app]. intros (_ & _ & x & e & rest & _ & _ & E).
    injection E as -> _. discriminate Hc.
  - cbn [skipn app]. apply IH; [exact Hno|lia].
Qed.

(** X11.  A file name without an at sign has the scale [1.0]; and a file
    name made of a part without at sign, an at sign, the decimal numeral of
    a number [n], the letter x in either case, a dot and an image extension
    (whatever follows) has the scale [float(n)]: the numeral is read back
    as the number it denotes. *)
Theorem scale_of_marked_and_unmarked_names (u : Unicode.db) :
  (forall filename,
      forallb (fun c => negb (c =? ch "@")) filename = true ->
      parse_design_scale u filename = Ok Float.one)
  /\ (forall stem n x e rest,
         forallb (fun c => negb (c =? ch "@")) stem = true ->
         Regex.lower x = ch "x" ->
         image_extension e ->
         parse_design_scale u
           (stem ++ ch "@" :: Str.of_nat n ++ x :: ch "." :: e ++ rest)
         = Ok (Float.of_Z (Z.of_nat n))).
Proof.
  split.
  - intros filename Hno. unfold parse_design_scale.
    rewrite search_none; [reflexivity|].
    intros i. apply no_marker_no_run. intros ds Hm.
    destruct (Nat.lt_ge_cases i (length filename)) as [Hi|Hi].
    + apply (@no_marker_before_at u filename [] ds i Hno Hi).
      now rewrite app_nil_r.
    + rewrite skipn_all2 in Hm by exact Hi.
      destruct Hm as (_ & _ & x & e & rest & _ & _ & E). discriminate E.
  - intros stem n x e rest Hno Hx He. unfold parse_design_scale.
    set (tail := ch "@" :: Str.of_nat n ++ x :: ch "." :: e ++ rest).
    assert (Hds : forallb (Unicode.isdecimal u) (Str.of_nat n) = true).
    { rewrite forallb_forall. intros c Hc. apply ascii_digit_isdecimal.
      pose proof (of_nat_digits n) as Hd. rewrite forallb_forall in Hd. auto. }
    assert (Hm : density_marker u (Str.of_nat n) (skipn (length stem) (stem ++ tail))).
    { rewrite skipn_app, skipn_all, Nat.sub_diag. cbn [app skipn].
      split; [apply of_nat_not_nil|]. split; [exact Hds|].
      now exists x, e, rest. }
    destruct (marker_runs Hm) as (m & l & Hrun & Hg).
    rewrite (@search_first u scale_pattern (stem ++ tail) (length stem) m l Hrun).
    + rewrite Hg. unfold py_float. rewrite digits_value_of_nat.
      rewrite nat_N_Z. destruct (Str.of_nat n) eqn:E; [|reflexivity].
      now apply of_nat_not_nil in E.
    + intros j Hj. apply no_marker_no_run. intros ds.
      now apply no_marker_before_at.
Qed.

Lemma scale_of_names_witness :
  parse_design_scale Unicode.latin1 (lit "readme.txt") = Ok Float.one
  /\ parse_design_scale Unicode.latin1
       (lit "icon" ++ ch "@" :: Str.of_nat 12 ++ ch "X" :: ch "." :: lit "Jpg"
        ++ lit ".bak")
     = Ok (Float.of_Z (Z.of_nat 12)).
Proof.
  split.
  - apply (proj1 (scale_of_marked_and_unmarked_names Unicode.latin1)).
    reflexivity.
  - apply (proj2 (scale_of_marked_and_unmarked_names Unicode.latin1)).
    + reflexivity.
    + reflexivity.
    + right. left. reflexivity.
Defined.

(** ** The symbols of the byte arrays *)

Lemma rev_hexdigits (digest : str) :
  forallb Hex.is_hexdigit digest = true ->
  forallb Hex.is_hexdigit (rev digest) = true.
Proof.
  rewrite !forallb_forall. intros H x Hx. apply H. now apply in_rev.
Qed.

(** X12.  The source text names the byte array of a resource by its
    identifier followed by [_data]; no identifier of the mapping ends in
    [_data], so the arrays and the records never share a symbol. *)
Theorem data_symbols_are_no_identifiers
  (fl : flavour) (u : Unicode.db) (fs : node) (input_dir : path)
  (resources : dict) :
  collect_resources fl u fs input_dir = Ok resources ->
  forall prefix identifier,
    In identifier (keys resources) ->
    prefix ++ lit "_data" <> identifier.
Proof.
  intros H identifier1 identifier2 H2 E.
  apply collect_resources_ok in H. destruct H as (_ & _ & Hall).
  unfold keys in H2. apply in_map_iff in H2.
  destruct H2 as ([id [[fp norm] sc]] & Hid & Hin). cbn [fst] in Hid. subst id.
  rewrite Forall_forall in Hall.
  destruct (Hall _ Hin) as (rel & base & k & _ & _ & Hbase & _ & Hk).
  rewrite Hk in E. clear Hk. apply (f_equal (@rev char)) in E.
  rewrite rev_app_distr in E.
  change (rev (lit "_data")) with [97; 116; 97; 100; 95] in E.
  destruct k as [|k]; cbn [candidate] in E.
  - rewrite sanitize_identifier_cases in Hbase.
    destruct (Utf8.encode norm) as [data|e]; [|discriminate].
    destruct (map (sanitize_char u) (PathLib.stem (PathLib.parse fl norm)))
      as [|c0 rest]; [discriminate|].
    apply Ok_inj in Hbase. subst base.
    destruct (hash_suffix_spec data) as [Hlen Hhex].
    rewrite !rev_app_distr in E.
    apply rev_hexdigits in Hhex. rewrite <- length_rev in Hlen.
    destruct (rev (firstn 8 (MD5.hexdigest data))) as [|d1 [|d2 ds]];
      cbn [length] in Hlen; try discriminate.
    cbn [app] in E. injection E as _ E2 _. subst d2.
    cbn [forallb] in Hhex. rewrite andb_true_iff in Hhex.
    destruct Hhex as [_ Hhex]. discriminate Hhex.
  - rewrite !rev_app_distr in E.
    pose proof (of_nat_digits (S k)) as Hd.
    assert (Hd' : forallb Unicode.ascii_digit (rev (Str.of_nat (S k))) = true).
    { rewrite forallb_forall in *. intros x Hx. apply Hd. now apply in_rev. }
    pose proof (of_nat_not_nil (S k)) as Hne.
    destruct (rev (Str.of_nat (S k))) as [|d ds] eqn:Er.
    + apply (f_equal (@rev char)) in Er. rewrite rev_involutive in Er.
      now apply Hne.
    + cbn [app] in E. injection E as E1 _. subst d.
      cbn [forallb] in Hd'. discriminate Hd'.
Qed.

Lemma data_symbols_witness :
  Str.eqb (lit "icon_______8f000805" ++ lit "_data")
          (lit "icon_______8f000805_1")
  = false.
Proof.
  apply str_eqb_neq.
  apply (@data_symbols_are_no_identifiers Posix Unicode.latin1
           Sample.colliding [] Sample.colliding_resources).
  - vm_compute. reflexivity.
  - right. left. reflexivity.
Defined.

(** ** ASCII names *)

Lemma split_chars (is_sep : char -> bool) (s : str) :
  forall p c, In p (Str.split is_sep s) -> In c p -> In c s.
Proof.
  induction s as [|x s IH]; intros p c Hp Hc; cbn [Str.split] in Hp.
  - destruct Hp as [<-|[]]. destruct Hc.
  - destruct (is_sep x).
    + destruct Hp as [<-|Hp]; [destruct Hc|]. right. eapply IH; eauto.
    + destruct (Str.split is_sep s) as [|q qs] eqn:Es.
      * destruct Hp as [<-|[]]. destruct Hc as [->|[]]. now left.
      * destruct Hp as [<-|Hp].
        -- destruct Hc as [->|Hc]; [now left|]. right.
           apply (IH q c); [now left|exact Hc].
        -- right. apply (IH p c); [now right|exact Hc].
Qed.

Lemma stem_chars (fl : flavour) (name : str) (c : char) :
  In c (PathLib.stem (PathLib.parse fl name)) -> In c name.
Proof.
  unfold PathLib.stem, PathLib.name, PathLib.parse.
  set (parts := filter _ _). intros Hc.
  assert (Hn : In c (last parts [])).
  { unfold PathLib.stem_of in Hc.
    destruct (Str.rfind dot (last parts [])) as [i|]; [|exact Hc].
    destruct ((0 <? i)%nat && (i <? length (last parts []) - 1)%nat);
      [|exact Hc].
    rewrite <- (firstn_skipn i (last parts [])). apply in_or_app. now left. }
  destruct parts as [|p0 ps] eqn:Ep; [destruct Hn|].
  assert (Hl : In (last (p0 :: ps) []) parts)
    by (rewrite Ep; apply last_in; discriminate).
  unfold parts in Hl. apply filter_In in Hl. destruct Hl as [Hl _].
  eapply split_chars; eauto.
Qed.

(** X13.  A file name made of ASCII characters, in which [pathlib] finds no
    drive and no share and whose stem is not empty, always gets an
    identifier, and that identifier follows the symbol grammar
    [[A-Za-z_][A-Za-z0-9_]*]. *)
Theorem ascii_names_get_grammatical_identifiers
  (fl : flavour) (u : Unicode.db) (name : str) :
  anchor_free fl name = true ->
  forallb Unicode.is_ascii name = true ->
  PathLib.stem (PathLib.parse fl name) <> [] ->
  exists identifier,
    sanitize_identifier fl u name = Ok identifier
    /\ symbol_grammar identifier = true.
Proof.
  intros _ Hascii Hstem. rewrite forallb_forall in Hascii.
  assert (Henc : forallb (fun c => negb (Utf8.is_surrogate c)) name = true).
  { rewrite forallb_forall. intros c Hc. specialize (Hascii c Hc).
    unfold Unicode.is_ascii in Hascii. apply N.ltb_lt in Hascii.
    unfold Utf8.is_surrogate. apply negb_true_iff, andb_false_iff. left.
    apply N.leb_gt. lia. }
  destruct (sanitize_nonempty_stem fl u name Hstem) as [(identifier & Hid)|[_ Hs]].
  - exists identifier. split; [exact Hid|].
    apply (sanitize_ascii_grammar fl u name Hid).
    apply Forall_forall. intros c Hc _. apply Hascii.
    now apply stem_chars with (fl := fl).
  - exfalso. apply (existsb_forallb_negb _ _ Hs Henc).
Qed.

Lemma ascii_names_witness :
  exists identifier,
    sanitize_identifier Windows Unicode.latin1 (lit "ui\9 patch (v2).PNG")
    = Ok identifier
    /\ symbol_grammar identifier = true.
Proof.
  apply ascii_names_get_grammatical_identifiers.
  - reflexivity.
  - reflexivity.
  - vm_compute. discriminate.
Defined.
